(** * duckdb-crawl: the [crawl_urls] table function

    A shallow embedding of [crawler_function.cpp] (signal handling, URL
    splitting, bind, the per-call crawl step) together with the
    declarations of [http_client.hpp] and [robots_parser.hpp] it relies on.

    Conventions of the embedding:
    - [std::string] is [string]; [std::vector] is [list];
      [std::unordered_map<std::string, DomainState>] is
      [gmap string DomainState], with [operator[]] written as
      lookup-or-default followed by insert.
    - a [double] field holds a finite value and is kept as the rational
      [Q] it denotes, so that comparisons are exact; the one arithmetic
      operation on doubles, the product of line 329, is rounded as IEEE 754
      binary64 rounds it (the standard library's [SpecFloat]);
      [static_cast<int64_t>] truncates toward zero and is undefined outside
      the range of [int64_t].
    - [std::chrono::steady_clock] is an integer count of nanoseconds;
      [duration_cast] truncates toward zero ([Z.quot]).
    - [int] counters are [Z]; they only count processed URLs.
    - side effects (clock, sleeping, HTTP requests, SIGINT delivery,
      [std::exit]) are threaded through a small state monad over [Machine]. *)

From Stdlib Require Import ZArith QArith String Ascii List Lia.
From Stdlib Require SpecFloat.
From stdpp Require Import gmap strings list fin_maps.

Local Open Scope string_scope.
Local Open Scope Z_scope.
Local Open Scope list_scope.

(** ** Strings as [std::string] *)

Module Str.

(** [s.find(pat, pos)]: index of the first occurrence at or after [pos],
    [None] for [npos]. *)
Definition find (pat : string) (pos : nat) (s : string) : option nat :=
  String.index pos pat s.

(** [s.substr(pos, len)]. *)
Definition substr (pos len : nat) (s : string) : string :=
  String.substring pos len s.

(** [s.substr(pos)]: up to the end of the string. *)
Definition substr_from (pos : nat) (s : string) : string :=
  String.substring pos (String.length s - pos) s.

End Str.

(** ** URL splitting (crawler_function.cpp, lines 66-100) *)

Definition ExtractDomain (url : string) : string :=
  match Str.find "://" 0 url with
  | None => ""
  | Some proto_end =>
      let domain_start := (proto_end + 3)%nat in
      let domain_end :=
        match Str.find "/" domain_start url with
        | None => String.length url
        | Some e => e
        end in
      let domain := Str.substr domain_start (domain_end - domain_start) url in
      match Str.find ":" 0 domain with
      | Some port_pos => Str.substr 0 port_pos domain
      | None => domain
      end
  end.

Definition ExtractPath (url : string) : string :=
  match Str.find "://" 0 url with
  | None => "/"
  | Some proto_end =>
      match Str.find "/" (proto_end + 3) url with
      | None => "/"
      | Some path_start => Str.substr_from path_start url
      end
  end.

Example ExtractDomain_https : ExtractDomain "https://example.com/a/b?x=1" = "example.com".
Proof. reflexivity. Qed.

Example ExtractDomain_port : ExtractDomain "http://example.com:8080/a" = "example.com".
Proof. reflexivity. Qed.

Example ExtractDomain_no_path : ExtractDomain "http://example.com" = "example.com".
Proof. reflexivity. Qed.

Example ExtractDomain_no_scheme : ExtractDomain "example.com/a" = "".
Proof. reflexivity. Qed.

Example ExtractPath_https : ExtractPath "https://example.com/a/b?x=1" = "/a/b?x=1".
Proof. reflexivity. Qed.

Example ExtractPath_no_path : ExtractPath "http://example.com" = "/".
Proof. reflexivity. Qed.

Example ExtractPath_no_scheme : ExtractPath "example.com/a" = "/".
Proof. reflexivity. Qed.

(** ** Numbers *)

(** [a < b] on [double], read on exact rationals. *)
Definition Qltb (a b : Q) : bool := negb (Qle_bool b a).

(** [std::max(a, b)] is [(a < b) ? b : a]; [std::min(a, b)] is [(b < a) ? b : a]. *)
Definition std_max (a b : Q) : Q := if Qltb a b then b else a.
Definition std_min (a b : Q) : Q := if Qltb b a then b else a.

(** The double a rational stands for: itself when it is a double (a
    dyadic rational is normalised exactly), and otherwise the double
    nearest to it, as a literal is read. *)
Definition double_of_Q (q : Q) : SpecFloat.spec_float :=
  let den := Zpos (Qden q) in
  let k := Z.log2 den in
  if Z.eqb den (2 ^ k) then SpecFloat.binary_normalize 53 1024 (Qnum q) (- k) false
  else SpecFloat.SFdiv 53 1024 (SpecFloat.binary_normalize 53 1024 (Qnum q) 0 false)
                               (SpecFloat.binary_normalize 53 1024 den 0 false).

(** [a * b] on [double]: the binary64 product, rounded to nearest, ties
    to even. *)
Definition double_mul (a b : SpecFloat.spec_float) : SpecFloat.spec_float :=
  SpecFloat.SFmul 53 1024 a b.

(** [static_cast<int64_t>(x)]: truncation toward zero; [None] where the
    conversion is undefined (a NaN, an infinity, a value outside the range
    of [int64_t]). *)
Definition double_to_int64 (x : SpecFloat.spec_float) : option Z :=
  match x with
  | SpecFloat.S754_zero _ => Some 0
  | SpecFloat.S754_finite s m e =>
      let magnitude := if Z.leb 0 e then Zpos m * 2 ^ e else Z.shiftr (Zpos m) (- e) in
      let v := if s then - magnitude else magnitude in
      if Z.leb (- 2 ^ 63) v && Z.ltb v (2 ^ 63) then Some v else None
  | SpecFloat.S754_infinity _ | SpecFloat.S754_nan => None
  end.

(** [static_cast<int64_t>(delay * 1000)] (line 329) where it is defined:
    the crawl delay in whole milliseconds. *)
Definition delay_in_ms (delay : Q) : option Z :=
  double_to_int64 (double_mul (double_of_Q delay) (double_of_Q 1000)).

Example delay_in_ms_one : delay_in_ms 1 = Some 1000.
Proof. reflexivity. Qed.

(** The double nearest 0.3: the exact product is just below 300, the
    double product is 300. *)
Example delay_in_ms_rounds :
  delay_in_ms (5404319552844595 # 18014398509481984) = Some 300.
Proof. reflexivity. Qed.

Example delay_in_ms_truncates : delay_in_ms (3 # 2048) = Some 1.
Proof. reflexivity. Qed.

Example delay_in_ms_negative : delay_in_ms (- (5 # 2)) = Some (-2500).
Proof. reflexivity. Qed.

(** [1e16 * 1000] is beyond [int64_t]. *)
Example delay_in_ms_undefined : delay_in_ms (10 ^ 16 # 1) = None.
Proof. reflexivity. Qed.

Definition ns_per_ms : Z := 1000000.
Definition ns_per_s : Z := 1000000000.

(** [duration_cast<milliseconds>] and [duration_cast<seconds>] of a
    steady-clock difference. *)
Definition to_milliseconds (ns : Z) : Z := Z.quot ns ns_per_ms.
Definition to_seconds (ns : Z) : Z := Z.quot ns ns_per_s.

(** ** DuckDB values *)

Inductive LogicalType :=
| VARCHAR | INTEGER | BIGINT | DOUBLE | BOOLEAN | TIMESTAMP
| LIST (child : LogicalType).

Set Warnings "-register-all".
Inductive Value :=
| VNull
| VBoolean (b : bool)
| VInteger (z : Z)
| VBigint (z : Z)
| VDouble (q : Q)
| VVarchar (s : string)
| VTimestamp (t : Z)
| VList (children : list Value).

Inductive Exception :=
| BinderException (msg : string)
| InternalException (msg : string).

(** Accessors of [Value]; a value of another type (or NULL) is an error. *)
Definition StringValue_Get (v : Value) : option string :=
  match v with VVarchar s => Some s | _ => None end.
Definition GetValue_double (v : Value) : option Q :=
  match v with VDouble q => Some q | _ => None end.
Definition GetValue_int (v : Value) : option Z :=
  match v with VInteger z => Some z | _ => None end.
Definition GetValue_bool (v : Value) : option bool :=
  match v with VBoolean b => Some b | _ => None end.

(** ** http_client.hpp *)

Record HttpResponse := mkHttpResponse {
  status_code : Z;
  body : string;
  content_type : string;
  retry_after : string;
  server_date : string;
  etag : string;
  last_modified : string;
  error : string;
  content_length : Z;
  success : bool
}.

Record RetryConfig := mkRetryConfig {
  max_retries : Z;
  initial_backoff_ms : Z;
  backoff_multiplier : Q;
  max_backoff_ms : Z
}.

(** The member initialisers of [RetryConfig]. *)
Definition RetryConfig_default : RetryConfig :=
  {| max_retries := 5; initial_backoff_ms := 100;
     backoff_multiplier := 2; max_backoff_ms := 30000 |}.

Definition set_max_retries (n : Z) (c : RetryConfig) : RetryConfig :=
  {| max_retries := n; initial_backoff_ms := initial_backoff_ms c;
     backoff_multiplier := backoff_multiplier c; max_backoff_ms := max_backoff_ms c |}.

(** ** robots_parser.hpp *)

Record RobotsRules := mkRobotsRules {
  crawl_delay : option Q;
  disallow : list string;
  allow : list string
}.

Definition RobotsRules_default : RobotsRules :=
  {| crawl_delay := None; disallow := []; allow := [] |}.

Record RobotsData := mkRobotsData {
  user_agents : list (string * RobotsRules);
  sitemaps : list string
}.

(** ** crawler_function.cpp: data *)

Record DomainState := mkDomainState {
  last_crawl_time : Z;
  crawl_delay_seconds : Q;
  rules : RobotsRules;
  robots_fetched : bool;
  urls_crawled : Z;
  urls_failed : Z;
  urls_skipped : Z
}.

(** A value-initialised [DomainState]: the steady clock's epoch, the
    member initialisers, empty rules. *)
Definition DomainState_default : DomainState :=
  {| last_crawl_time := 0; crawl_delay_seconds := 1; rules := RobotsRules_default;
     robots_fetched := false; urls_crawled := 0; urls_failed := 0; urls_skipped := 0 |}.

Record CrawlerBindData := mkCrawlerBindData {
  urls : list string;
  user_agent : string;
  default_crawl_delay : Q;
  min_crawl_delay : Q;
  max_crawl_delay : Q;
  timeout_seconds : Z;
  respect_robots_txt : bool;
  log_skipped : bool
}.

Record CrawlerGlobalState := mkCrawlerGlobalState {
  current_url_index : nat;
  domain_states : gmap string DomainState;
  total_crawled : Z;
  total_failed : Z;
  total_skipped : Z;
  total_cancelled : Z;
  start_time : Z
}.

Record CrawlerLocalState := mkCrawlerLocalState {
  finished : bool
}.

(** The process-wide signal flags. *)
Record SignalState := mkSignalState {
  g_shutdown_requested : bool;
  g_sigint_count : Z;
  g_last_sigint_time : Z
}.

(** A [DataChunk] of the eight output columns: a list of rows. *)
Definition Row : Type := list Value.
Definition DataChunk : Type := list Row.

(** ** CrawlerBind (crawler_function.cpp, lines 137-220) *)

Record TableFunctionBindInput := mkBindInput {
  inputs : list Value;
  named_parameters : list (string * Value)
}.

(** [make_uniq<CrawlerBindData>()] value-initialises the struct: every
    field starts at zero. *)
Definition CrawlerBindData_zero : CrawlerBindData :=
  {| urls := []; user_agent := ""; default_crawl_delay := 0; min_crawl_delay := 0;
     max_crawl_delay := 0; timeout_seconds := 0;
     respect_robots_txt := false; log_skipped := false |}.

Module Bind.

Definition with_urls (v : list string) (b : CrawlerBindData) : CrawlerBindData :=
  mkCrawlerBindData v (user_agent b) (default_crawl_delay b) (min_crawl_delay b)
    (max_crawl_delay b) (timeout_seconds b) (respect_robots_txt b) (log_skipped b).
Definition with_user_agent (v : string) (b : CrawlerBindData) : CrawlerBindData :=
  mkCrawlerBindData (urls b) v (default_crawl_delay b) (min_crawl_delay b)
    (max_crawl_delay b) (timeout_seconds b) (respect_robots_txt b) (log_skipped b).
Definition with_default_crawl_delay (v : Q) (b : CrawlerBindData) : CrawlerBindData :=
  mkCrawlerBindData (urls b) (user_agent b) v (min_crawl_delay b)
    (max_crawl_delay b) (timeout_seconds b) (respect_robots_txt b) (log_skipped b).
Definition with_min_crawl_delay (v : Q) (b : CrawlerBindData) : CrawlerBindData :=
  mkCrawlerBindData (urls b) (user_agent b) (default_crawl_delay b) v
    (max_crawl_delay b) (timeout_seconds b) (respect_robots_txt b) (log_skipped b).
Definition with_max_crawl_delay (v : Q) (b : CrawlerBindData) : CrawlerBindData :=
  mkCrawlerBindData (urls b) (user_agent b) (default_crawl_delay b) (min_crawl_delay b)
    v (timeout_seconds b) (respect_robots_txt b) (log_skipped b).
Definition with_timeout_seconds (v : Z) (b : CrawlerBindData) : CrawlerBindData :=
  mkCrawlerBindData (urls b) (user_agent b) (default_crawl_delay b) (min_crawl_delay b)
    (max_crawl_delay b) v (respect_robots_txt b) (log_skipped b).
Definition with_respect_robots_txt (v : bool) (b : CrawlerBindData) : CrawlerBindData :=
  mkCrawlerBindData (urls b) (user_agent b) (default_crawl_delay b) (min_crawl_delay b)
    (max_crawl_delay b) (timeout_seconds b) v (log_skipped b).
Definition with_log_skipped (v : bool) (b : CrawlerBindData) : CrawlerBindData :=
  mkCrawlerBindData (urls b) (user_agent b) (default_crawl_delay b) (min_crawl_delay b)
    (max_crawl_delay b) (timeout_seconds b) (respect_robots_txt b) v.

(** A failed accessor surfaces as an exception of the engine. *)
Definition get {A} (o : option A) : Exception + A :=
  match o with
  | Some a => inr a
  | None => inl (InternalException "value of unexpected type")
  end.

(** One iteration of the loop over [input.named_parameters]; the second
    component is [has_user_agent]. *)
Definition named_parameter (acc : CrawlerBindData * bool) (kv : string * Value)
  : Exception + (CrawlerBindData * bool) :=
  let '(b, has_user_agent) := acc in
  let '(k, v) := kv in
  if String.eqb k "user_agent" then
    match get (StringValue_Get v) with
    | inl e => inl e | inr s => inr (with_user_agent s b, true) end
  else if String.eqb k "default_crawl_delay" then
    match get (GetValue_double v) with
    | inl e => inl e | inr q => inr (with_default_crawl_delay q b, has_user_agent) end
  else if String.eqb k "min_crawl_delay" then
    match get (GetValue_double v) with
    | inl e => inl e | inr q => inr (with_min_crawl_delay q b, has_user_agent) end
  else if String.eqb k "max_crawl_delay" then
    match get (GetValue_double v) with
    | inl e => inl e | inr q => inr (with_max_crawl_delay q b, has_user_agent) end
  else if String.eqb k "timeout_seconds" then
    match get (GetValue_int v) with
    | inl e => inl e | inr z => inr (with_timeout_seconds z b, has_user_agent) end
  else if String.eqb k "respect_robots_txt" then
    match get (GetValue_bool v) with
    | inl e => inl e | inr x => inr (with_respect_robots_txt x b, has_user_agent) end
  else if String.eqb k "log_skipped" then
    match get (GetValue_bool v) with
    | inl e => inl e | inr x => inr (with_log_skipped x b, has_user_agent) end
  else inr acc.

Fixpoint named_parameters_loop (kvs : list (string * Value)) (acc : CrawlerBindData * bool)
  : Exception + (CrawlerBindData * bool) :=
  match kvs with
  | [] => inr acc
  | kv :: rest =>
      match named_parameter acc kv with
      | inl e => inl e
      | inr acc' => named_parameters_loop rest acc'
      end
  end.

(** Lines 166-177: the defaults, applied after the loop. *)
Definition set_defaults (b : CrawlerBindData) : CrawlerBindData :=
  let b := if Qeq_bool (default_crawl_delay b) 0 then with_default_crawl_delay 1 b else b in
  let b := if Qeq_bool (max_crawl_delay b) 0 then with_max_crawl_delay 60 b else b in
  let b := if Z.eqb (timeout_seconds b) 0 then with_timeout_seconds 30 b else b in
  let b := with_respect_robots_txt true b in
  with_log_skipped true b.

(** [bind_data->urls.push_back(StringValue::Get(child))] over the list. *)
Fixpoint push_urls (children : list Value) (acc : list string) : Exception + list string :=
  match children with
  | [] => inr acc
  | child :: rest =>
      match get (StringValue_Get child) with
      | inl e => inl e
      | inr s => push_urls rest (acc ++ [s])
      end
  end.

(** The output schema, in [emplace_back] order. *)
Definition names : list string :=
  ["url"; "domain"; "http_status"; "body"; "content_type"; "elapsed_ms"; "crawled_at"; "error"].
Definition return_types : list LogicalType :=
  [VARCHAR; VARCHAR; INTEGER; VARCHAR; VARCHAR; BIGINT; TIMESTAMP; VARCHAR].

End Bind.

Record BindOutput := mkBindOutput {
  bind_data : CrawlerBindData;
  out_types : list LogicalType;
  out_names : list string
}.

Definition CrawlerBind (input : TableFunctionBindInput) : Exception + BindOutput :=
  match Bind.named_parameters_loop (named_parameters input) (CrawlerBindData_zero, false) with
  | inl e => inl e
  | inr (b, has_user_agent) =>
      if negb has_user_agent then
        inl (BinderException "crawl_urls requires 'user_agent' parameter")
      else
        let b := Bind.set_defaults b in
        match inputs input with
        | [] => inl (BinderException "crawl_urls requires a list of URLs as first argument")
        | VList list_children :: _ =>
            match Bind.push_urls list_children (urls b) with
            | inl e => inl e
            | inr us => inr (mkBindOutput (Bind.with_urls us b) Bind.return_types Bind.names)
            end
        | _ :: _ => inl (BinderException "crawl_urls first argument must be a list of URLs")
        end
  end.

(** The value of column [c] in a row laid out by [names]. *)
Fixpoint column_index (names : list string) (c : string) : option nat :=
  match names with
  | [] => None
  | n :: rest => if String.eqb n c then Some 0%nat else option_map S (column_index rest c)
  end.

Definition column (names : list string) (r : Row) (c : string) : option Value :=
  match column_index names c with
  | Some i => r !! i
  | None => None
  end.

(** RegisterCrawlerFunction (lines 377-391): the named parameters and
    their types. *)
Definition registered_named_parameters : list (string * LogicalType) :=
  [("user_agent", VARCHAR); ("default_crawl_delay", DOUBLE); ("min_crawl_delay", DOUBLE);
   ("max_crawl_delay", DOUBLE); ("timeout_seconds", INTEGER);
   ("respect_robots_txt", BOOLEAN); ("log_skipped", BOOLEAN)].

Definition has_type (v : Value) (t : LogicalType) : bool :=
  match v, t with
  | VVarchar _, VARCHAR | VDouble _, DOUBLE | VInteger _, INTEGER
  | VBoolean _, BOOLEAN | VBigint _, BIGINT | VTimestamp _, TIMESTAMP => true
  | _, _ => false
  end.

Fixpoint registered_type (ps : list (string * LogicalType)) (k : string) : option LogicalType :=
  match ps with
  | [] => None
  | (n, t) :: rest => if String.eqb n k then Some t else registered_type rest k
  end.

(** Every named parameter carries a non-NULL value of its registered type. *)
Definition well_typed (kvs : list (string * Value)) : bool :=
  forallb (λ kv, match registered_type registered_named_parameters (fst kv) with
                 | Some t => has_type (snd kv) t
                 | None => true
                 end) kvs.

(** ** The collaborators whose bodies live in other translation units

    [crawler_function.cpp] only sees their declarations, so they are
    interfaces here.  [Fetch] answers with the response and the time the
    call took (in nanoseconds), as a function of the moment it is issued. *)

Class HttpClient := {
  Fetch : string → RetryConfig → string → Z → HttpResponse * N
}.

Class RobotsParser := {
  Parse : string → RobotsData;
  GetRulesForUserAgent : RobotsData → string → RobotsRules;
  IsAllowed : RobotsRules → string → bool
}.

Class Platform := {
  (** how much longer than asked [sleep_for] blocks (it never blocks less) *)
  oversleep : Z → Z → N;
  (** [Timestamp::GetCurrentTimestamp()] at a given steady-clock instant *)
  GetCurrentTimestamp : Z → Z;
  (** what [static_cast<int64_t>] leaves in the integer where the
      conversion is undefined (x86-64: the most negative [int64_t]) *)
  undefined_int64 : SpecFloat.spec_float → Z
}.

(** ** SignalHandler (crawler_function.cpp, lines 26-41) *)

Definition SIGINT : Z := 2.

(** The handler at steady-clock instant [now]; the boolean tells whether
    [std::exit(1)] was called. *)
Definition SignalHandler (signum : Z) (now : Z) (s : SignalState) : SignalState * bool :=
  if Z.eqb signum SIGINT then
    let elapsed := to_seconds (now - g_last_sigint_time s) in
    let count := g_sigint_count s + 1 in
    if Z.leb 2 count && Z.ltb elapsed 3 then
      (mkSignalState (g_shutdown_requested s) count now, true)
    else
      (mkSignalState true count now, false)
  else (s, false).

(** ** The machine: clock, signals, observable requests, crawler state *)

Inductive RequestKind := RobotsRequest | UrlRequest.

#[global] Instance RequestKind_eq_dec : EqDecision RequestKind.
Proof. solve_decision. Defined.

Record Event := mkEvent {
  ev_kind : RequestKind;
  ev_url : string;
  ev_config : RetryConfig;
  ev_user_agent : string;
  ev_start : Z;
  ev_finish : Z
}.

Record Machine := mkMachine {
  clock : Z;
  signals : SignalState;
  (** arrival instants of the SIGINTs still to come *)
  pending_sigints : list Z;
  (** HTTP requests issued so far, oldest first *)
  trace : list Event;
  (** rows already handed to the engine *)
  emitted : list Row;
  global_state : CrawlerGlobalState;
  local_state : CrawlerLocalState
}.

Inductive Res (A : Type) :=
| Ret (a : A) (m : Machine)
| Exit (code : Z) (m : Machine).
Arguments Ret {A} a m.
Arguments Exit {A} code m.

Definition M (A : Type) : Type := Machine → Res A.

Definition retM {A} (a : A) : M A := λ m, Ret a m.
Definition bindM {A B} (c : M A) (k : A → M B) : M B :=
  λ m, match c m with
       | Ret a m' => k a m'
       | Exit code m' => Exit code m'
       end.

Declare Scope crawl_scope.
Delimit Scope crawl_scope with crawl.
Notation "'let*' x := c 'in' k" := (bindM c (λ x, k))
  (at level 10, x name, c at level 100, k at level 200) : crawl_scope.
Notation "c >> k" := (bindM c (λ _, k))
  (at level 100, k at level 200, right associativity) : crawl_scope.
Local Open Scope crawl_scope.

Module Mach.

Definition with_clock (v : Z) (m : Machine) : Machine :=
  mkMachine v (signals m) (pending_sigints m) (trace m) (emitted m)
    (global_state m) (local_state m).
Definition with_signals (s : SignalState) (ps : list Z) (m : Machine) : Machine :=
  mkMachine (clock m) s ps (trace m) (emitted m) (global_state m) (local_state m).
Definition with_trace (v : list Event) (m : Machine) : Machine :=
  mkMachine (clock m) (signals m) (pending_sigints m) v (emitted m)
    (global_state m) (local_state m).
Definition with_emitted (v : list Row) (m : Machine) : Machine :=
  mkMachine (clock m) (signals m) (pending_sigints m) (trace m) v
    (global_state m) (local_state m).
Definition with_global (v : CrawlerGlobalState) (m : Machine) : Machine :=
  mkMachine (clock m) (signals m) (pending_sigints m) (trace m) (emitted m)
    v (local_state m).
Definition with_local (v : CrawlerLocalState) (m : Machine) : Machine :=
  mkMachine (clock m) (signals m) (pending_sigints m) (trace m) (emitted m)
    (global_state m) v.

Definition get {A} (f : Machine → A) : M A := λ m, Ret (f m) m.
Definition modify (f : Machine → Machine) : M unit := λ m, Ret tt (f m).
Definition modify_global (f : CrawlerGlobalState → CrawlerGlobalState) : M unit :=
  modify (λ m, with_global (f (global_state m)) m).

(** SIGINTs arriving up to [upto] run the handler in order of arrival; the
    third component is the instant at which the handler exited. *)
Fixpoint deliver_sigints (upto : Z) (ps : list Z) (s : SignalState)
  : SignalState * list Z * option Z :=
  match ps with
  | [] => (s, [], None)
  | t :: rest =>
      if Z.leb t upto then
        let '(s', exited) := SignalHandler SIGINT t s in
        if exited then (s', rest, Some t) else deliver_sigints upto rest s'
      else (s, ps, None)
  end.

(** Let [d] nanoseconds pass. *)
Definition advance (d : Z) : M unit :=
  λ m, let upto := clock m + d in
       match deliver_sigints upto (pending_sigints m) (signals m) with
       | (s, ps, None) => Ret tt (with_clock upto (with_signals s ps m))
       | (s, ps, Some t) => Exit 1 (with_clock t (with_signals s ps m))
       end.

(** [std::chrono::steady_clock::now()]. *)
Definition steady_now : M Z := get clock.

(** A read of [g_shutdown_requested]. *)
Definition shutdown_requested : M bool := get (λ m, g_shutdown_requested (signals m)).

End Mach.

(** ** Per-domain state behind [global_state.domain_states[domain]] *)

Module Glob.

Definition with_index (v : nat) (g : CrawlerGlobalState) : CrawlerGlobalState :=
  mkCrawlerGlobalState v (domain_states g) (total_crawled g) (total_failed g)
    (total_skipped g) (total_cancelled g) (start_time g).
Definition with_domain_states (v : gmap string DomainState) (g : CrawlerGlobalState)
  : CrawlerGlobalState :=
  mkCrawlerGlobalState (current_url_index g) v (total_crawled g) (total_failed g)
    (total_skipped g) (total_cancelled g) (start_time g).
Definition with_total_crawled (v : Z) (g : CrawlerGlobalState) : CrawlerGlobalState :=
  mkCrawlerGlobalState (current_url_index g) (domain_states g) v (total_failed g)
    (total_skipped g) (total_cancelled g) (start_time g).
Definition with_total_failed (v : Z) (g : CrawlerGlobalState) : CrawlerGlobalState :=
  mkCrawlerGlobalState (current_url_index g) (domain_states g) (total_crawled g) v
    (total_skipped g) (total_cancelled g) (start_time g).
Definition with_total_skipped (v : Z) (g : CrawlerGlobalState) : CrawlerGlobalState :=
  mkCrawlerGlobalState (current_url_index g) (domain_states g) (total_crawled g)
    (total_failed g) v (total_cancelled g) (start_time g).
Definition with_total_cancelled (v : Z) (g : CrawlerGlobalState) : CrawlerGlobalState :=
  mkCrawlerGlobalState (current_url_index g) (domain_states g) (total_crawled g)
    (total_failed g) (total_skipped g) v (start_time g).

(** The state [domain_states[domain]] refers to (a default one when the
    key is new). *)
Definition domain_state (g : CrawlerGlobalState) (domain : string) : DomainState :=
  default DomainState_default (domain_states g !! domain).

(** A write through the reference [domain_states[domain]]; it also
    creates the entry. *)
Definition update_domain (domain : string) (f : DomainState → DomainState)
    (g : CrawlerGlobalState) : CrawlerGlobalState :=
  with_domain_states (<[domain := f (domain_state g domain)]> (domain_states g)) g.

Definition fresh (now : Z) : CrawlerGlobalState :=
  mkCrawlerGlobalState 0 ∅ 0 0 0 0 now.

End Glob.

Module Dom.

Definition with_last_crawl_time (v : Z) (d : DomainState) : DomainState :=
  mkDomainState v (crawl_delay_seconds d) (rules d) (robots_fetched d)
    (urls_crawled d) (urls_failed d) (urls_skipped d).
Definition with_crawl_delay_seconds (v : Q) (d : DomainState) : DomainState :=
  mkDomainState (last_crawl_time d) v (rules d) (robots_fetched d)
    (urls_crawled d) (urls_failed d) (urls_skipped d).
Definition with_rules (v : RobotsRules) (d : DomainState) : DomainState :=
  mkDomainState (last_crawl_time d) (crawl_delay_seconds d) v (robots_fetched d)
    (urls_crawled d) (urls_failed d) (urls_skipped d).
Definition with_robots_fetched (v : bool) (d : DomainState) : DomainState :=
  mkDomainState (last_crawl_time d) (crawl_delay_seconds d) (rules d) v
    (urls_crawled d) (urls_failed d) (urls_skipped d).
Definition with_urls_crawled (v : Z) (d : DomainState) : DomainState :=
  mkDomainState (last_crawl_time d) (crawl_delay_seconds d) (rules d) (robots_fetched d)
    v (urls_failed d) (urls_skipped d).
Definition with_urls_failed (v : Z) (d : DomainState) : DomainState :=
  mkDomainState (last_crawl_time d) (crawl_delay_seconds d) (rules d) (robots_fetched d)
    (urls_crawled d) v (urls_skipped d).
Definition with_urls_skipped (v : Z) (d : DomainState) : DomainState :=
  mkDomainState (last_crawl_time d) (crawl_delay_seconds d) (rules d) (robots_fetched d)
    (urls_crawled d) (urls_failed d) v.

End Dom.

(** ** CrawlerInitGlobal and CrawlerFunction (lines 222-375) *)

(** [RetryConfig retry_config; retry_config.max_retries = 2;] (lines
    275-276) and the same with 3 (lines 346-347). *)
Definition robots_config : RetryConfig := set_max_retries 2 RetryConfig_default.
Definition url_config : RetryConfig := set_max_retries 3 RetryConfig_default.

(** Line 274. *)
Definition robots_url (domain : string) : string :=
  ("https://" ++ domain ++ "/robots.txt")%string.

(** Lines 310-317: the row of a URL skipped for robots.txt. *)
Definition skipped_row (url domain : string) (ts : Z) : Row :=
  [VVarchar url; VVarchar domain; VInteger (-1); VNull; VNull; VInteger 0;
   VTimestamp ts; VVarchar "robots.txt disallow"].

Definition varchar_or_null (s : string) : Value :=
  if String.eqb s "" then VNull else VVarchar s.

(** Lines 367-374: the row of a fetched URL. *)
Definition result_row (url domain : string) (response : HttpResponse)
    (fetch_elapsed_ms ts : Z) : Row :=
  [VVarchar url; VVarchar domain; VInteger (status_code response);
   varchar_or_null (body response); varchar_or_null (content_type response);
   VBigint fetch_elapsed_ms; VTimestamp ts; varchar_or_null (error response)].

(** Line 329. *)
Definition required_delay_ms `{Platform} (d : DomainState) : Z :=
  let product := double_mul (double_of_Q (crawl_delay_seconds d)) (double_of_Q 1000) in
  match double_to_int64 product with
  | Some ms => ms
  | None => undefined_int64 product
  end.

(** Resets the flag and the count (not the time of the last SIGINT). *)
Definition CrawlerInitGlobal : M unit :=
  Mach.modify (λ m,
    Mach.with_global (Glob.fresh (clock m))
      (Mach.with_signals
         (mkSignalState false 0 (g_last_sigint_time (signals m)))
         (pending_sigints m) m)).

Definition CrawlerInitLocal : M unit :=
  Mach.modify (Mach.with_local (mkCrawlerLocalState false)).

Section Crawler.

Context `{HttpClient} `{RobotsParser} `{Platform}.

(** [HttpClient::Fetch] as the crawler sees it: the request is observable
    from the moment it is issued, and the call blocks until it is over. *)
Definition http_fetch (kind : RequestKind) (url : string) (config : RetryConfig)
    (ua : string) : M HttpResponse :=
  λ m, let '(response, took) := Fetch url config ua (clock m) in
       let e := mkEvent kind url config ua (clock m) (clock m + Z.of_N took) in
       match Mach.advance (Z.of_N took) (Mach.with_trace (trace m ++ [e]) m) with
       | Ret _ m' => Ret response m'
       | Exit code m' => Exit code m'
       end.

(** [std::this_thread::sleep_for(std::chrono::milliseconds(ms))]. *)
Definition sleep_for_ms (ms : Z) : M unit :=
  λ m, Mach.advance (ms * ns_per_ms + Z.of_N (oversleep (clock m) ms)) m.

(** Lines 280-297: what a robots.txt response does to the domain state. *)
Definition apply_robots_response (b : CrawlerBindData) (response : HttpResponse)
    (d : DomainState) : DomainState :=
  if success response then
    let robots_data := Parse (body response) in
    let d := Dom.with_rules (GetRulesForUserAgent robots_data (user_agent b)) d in
    let d :=
      match crawl_delay (rules d) with
      | Some v => Dom.with_crawl_delay_seconds v d
      | None => Dom.with_crawl_delay_seconds (default_crawl_delay b) d
      end in
    let d := Dom.with_crawl_delay_seconds
               (std_max (crawl_delay_seconds d) (min_crawl_delay b)) d in
    Dom.with_crawl_delay_seconds
      (std_min (crawl_delay_seconds d) (max_crawl_delay b)) d
  else
    Dom.with_crawl_delay_seconds (default_crawl_delay b) d.

(** Lines 272-300. *)
Definition fetch_robots_txt (b : CrawlerBindData) (domain : string) : M unit :=
  let* g := Mach.get global_state in
  if respect_robots_txt b && negb (robots_fetched (Glob.domain_state g domain)) then
    let* response := http_fetch RobotsRequest (robots_url domain) robots_config (user_agent b) in
    Mach.modify_global (Glob.update_domain domain (apply_robots_response b response)) >>
    Mach.modify_global (Glob.update_domain domain (Dom.with_robots_fetched true))
  else retM tt.

(** Lines 326-334. *)
Definition wait_for_crawl_delay (domain : string) : M unit :=
  let* now := Mach.steady_now in
  let* g := Mach.get global_state in
  let domain_state := Glob.domain_state g domain in
  let elapsed := to_milliseconds (now - last_crawl_time domain_state) in
  if Z.ltb elapsed (required_delay_ms domain_state) then
    sleep_for_ms (required_delay_ms domain_state - elapsed)
  else retM tt.

(** Lines 343-374. *)
Definition fetch_url (b : CrawlerBindData) (url domain : string) : M DataChunk :=
  let* fetch_start := Mach.steady_now in
  let* response := http_fetch UrlRequest url url_config (user_agent b) in
  let* fetch_end := Mach.steady_now in
  let fetch_elapsed_ms := to_milliseconds (fetch_end - fetch_start) in
  Mach.modify_global (Glob.update_domain domain (Dom.with_last_crawl_time fetch_end)) >>
  (if success response then
     Mach.modify_global (λ g, Glob.with_total_crawled (total_crawled g + 1) g) >>
     Mach.modify_global
       (Glob.update_domain domain (λ d, Dom.with_urls_crawled (urls_crawled d + 1) d))
   else
     Mach.modify_global (λ g, Glob.with_total_failed (total_failed g + 1) g) >>
     Mach.modify_global
       (Glob.update_domain domain (λ d, Dom.with_urls_failed (urls_failed d + 1) d))) >>
  let* ts := Mach.get (λ m, GetCurrentTimestamp (clock m)) in
  retM [result_row url domain response fetch_elapsed_ms ts].

(** Lines 302-324. *)
Definition skip_disallowed (b : CrawlerBindData) (url domain : string) : M DataChunk :=
  Mach.modify_global (λ g, Glob.with_total_skipped (total_skipped g + 1) g) >>
  Mach.modify_global
    (Glob.update_domain domain (λ d, Dom.with_urls_skipped (urls_skipped d + 1) d)) >>
  if log_skipped b then
    let* ts := Mach.get (λ m, GetCurrentTimestamp (clock m)) in
    retM [skipped_row url domain ts]
  else retM [].

(** Lines 262-375, once a URL has been taken from the list. *)
Definition process_url (b : CrawlerBindData) (url : string) : M DataChunk :=
  let domain := ExtractDomain url in
  let path := ExtractPath url in
  Mach.modify_global (Glob.update_domain domain (λ d, d)) >>
  fetch_robots_txt b domain >>
  let* g := Mach.get global_state in
  if respect_robots_txt b && negb (IsAllowed (rules (Glob.domain_state g domain)) path) then
    skip_disallowed b url domain
  else
    wait_for_crawl_delay domain >>
    let* shutdown := Mach.shutdown_requested in
    if shutdown then
      Mach.modify_global (λ g, Glob.with_total_cancelled (total_cancelled g + 1) g) >>
      retM []
    else fetch_url b url domain.

(** One call of the table function.  The body runs under
    [global_state.mutex], so calls never overlap. *)
Definition CrawlerFunction (b : CrawlerBindData) : M DataChunk :=
  let* fin := Mach.get (λ m, finished (local_state m)) in
  let* shutdown := Mach.shutdown_requested in
  if fin || shutdown then retM []
  else
    let* g := Mach.get global_state in
    match urls b !! current_url_index g with
    | None =>
        Mach.modify (Mach.with_local (mkCrawlerLocalState true)) >> retM []
    | Some url =>
        Mach.modify_global (Glob.with_index (S (current_url_index g))) >>
        process_url b url
    end.

End Crawler.

(** ** The engine's side: bind, initialise, scan *)

Section Engine.

Context `{HttpClient} `{RobotsParser} `{Platform}.

(** time the engine spends before it calls the function again *)
Variable between_calls : Z → N.

(** The engine calls the function until it returns an empty chunk. *)
Fixpoint scan (fuel : nat) (b : CrawlerBindData) : M unit :=
  match fuel with
  | O => retM tt
  | S fuel' =>
      let* now := Mach.steady_now in
      Mach.advance (Z.of_N (between_calls now)) >>
      let* chunk := CrawlerFunction b in
      match chunk with
      | [] => retM tt
      | _ => Mach.modify (λ m, Mach.with_emitted (emitted m ++ chunk) m) >> scan fuel' b
      end
  end.

(** [SELECT * FROM crawl_urls(...)]: a bind error ends the statement
    before anything else runs. *)
Definition crawl_urls (input : TableFunctionBindInput) (m : Machine)
  : Exception + Res unit :=
  match CrawlerBind input with
  | inl e => inl e
  | inr out =>
      inr ((CrawlerInitGlobal >> CrawlerInitLocal >>
            scan (S (length (urls (bind_data out)))) (bind_data out)) m)
  end.

End Engine.

(** A process that has been up for [now] nanoseconds, with SIGINTs to
    arrive at [sigints]; the signal flags are zero-initialised statics. *)
Definition boot (now : Z) (sigints : list Z) : Machine :=
  {| clock := now;
     signals := mkSignalState false 0 0;
     pending_sigints := sigints;
     trace := [];
     emitted := [];
     global_state := Glob.fresh 0;
     local_state := mkCrawlerLocalState false |}.

Definition machine_of {A} (r : Res A) : Machine :=
  match r with Ret _ m => m | Exit _ m => m end.

Definition chunk_of (r : Res DataChunk) : DataChunk :=
  match r with Ret c _ => c | Exit _ _ => [] end.

(** The bind data of a statement, and the machine once the engine has
    initialised the scan. *)
Definition bound (input : TableFunctionBindInput) : CrawlerBindData :=
  match CrawlerBind input with
  | inr out => bind_data out
  | inl _ => CrawlerBindData_zero
  end.

Definition started (now : Z) (sigints : list Z) : Machine :=
  machine_of ((CrawlerInitGlobal >> CrawlerInitLocal) (boot now sigints)).

Definition one_hour : Z := 3600 * ns_per_s.

(** ** A small world to run the crawler in

    One site, [example.com]: its robots.txt forbids [/private], asks for a
    crawl delay of two seconds and takes 5 ms to fetch; pages take 20 ms.
    Every other host fails to connect after 1 ms. *)

Module World.

Definition ms (n : Z) : Z := n * ns_per_ms.

Definition ok (b : string) : HttpResponse :=
  mkHttpResponse 200 b "text/html" "" "" "" "" "" (-1) true.
Definition failed (code : Z) (e : string) : HttpResponse :=
  mkHttpResponse code "" "" "" "" "" "" e (-1) false.

Definition robots_body : string := "User-agent: * / Disallow: /private / Crawl-delay: 2".

Definition fetch (url : string) (c : RetryConfig) (ua : string) (now : Z) : HttpResponse * N :=
  if String.eqb url "https://example.com/robots.txt" then (ok robots_body, 5000000%N)
  else if String.eqb (ExtractDomain url) "example.com" then (ok "<html></html>", 20000000%N)
  else (failed 0 "Connection refused", 1000000%N).

Definition parse (content : string) : RobotsData :=
  if String.eqb content robots_body
  then mkRobotsData [("*", mkRobotsRules (Some 2%Q) ["/private"] [])] []
  else mkRobotsData [] [].

Definition rules_for (data : RobotsData) (ua : string) : RobotsRules :=
  match user_agents data with
  | (_, r) :: _ => r
  | [] => RobotsRules_default
  end.

Definition is_allowed (r : RobotsRules) (path : string) : bool :=
  negb (existsb (λ p, String.prefix p path) (disallow r)).

Definition http : HttpClient := {| Fetch := fetch |}.
Definition robots : RobotsParser :=
  {| Parse := parse; GetRulesForUserAgent := rules_for; IsAllowed := is_allowed |}.
Definition platform : Platform :=
  {| oversleep := λ _ _, 0%N; GetCurrentTimestamp := λ now, now;
     undefined_int64 := λ _, - 2 ^ 63 |}.

Definition no_gap : Z → N := λ _, 0%N.

Definition run (input : TableFunctionBindInput) (m : Machine) : Exception + Res unit :=
  @crawl_urls http robots platform no_gap input m.

Definition crawl (b : CrawlerBindData) (m : Machine) : Res DataChunk :=
  @CrawlerFunction http robots platform b m.

Definition query (us : list string) (named : list (string * Value)) : TableFunctionBindInput :=
  mkBindInput [VList (map VVarchar us)] named.

Definition bot : list (string * Value) := [("user_agent", VVarchar "bot")].

(** One plain-http URL on [example.com]. *)
Definition plain : CrawlerBindData := bound (query ["http://example.com/a"] bot).

(** One URL under the forbidden prefix. *)
Definition secret : CrawlerBindData := bound (query ["https://example.com/private/secret"] bot).

(** A string that is no URL. *)
Definition no_scheme : CrawlerBindData := bound (query ["example.com/a"] bot).

(** Three pages of one host. *)
Definition three_urls : list string :=
  ["https://example.com/a"; "https://example.com/b"; "https://example.com/c"].
Definition three : CrawlerBindData := bound (query three_urls bot).

(** The machine after the first of them has been crawled, with a SIGINT
    due one second into the run. *)
Definition after_first : Machine :=
  machine_of (crawl three (started one_hour [one_hour + ms 1000])).

(** The three-page crawl run to its end undisturbed. *)
Definition three_pages : Res unit :=
  match run (query three_urls bot) (boot one_hour []) with
  | inr r => r
  | inl _ => Exit 0 (boot one_hour [])
  end.

End World.

(** * Properties *)

(** ** Bind *)

Section BindFacts.

Lemma named_parameter_keeps_flag b kv b' h :
  fst kv ≠ "user_agent" →
  Bind.named_parameter (b, false) kv = inr (b', h) → h = false.
Proof.
  destruct kv as [k v]; simpl; intros Hk.
  destruct (String.eqb_spec k "user_agent") as [->|_]; [by destruct Hk|].
  repeat match goal with
         | |- context [String.eqb k ?s] => destruct (String.eqb k s)
         | |- context [Bind.get ?o] => destruct o; simpl
         end; congruence.
Qed.

Lemma loop_keeps_flag kvs : ∀ b b' h,
  (∀ v, (("user_agent" : string), v) ∉ kvs) →
  Bind.named_parameters_loop kvs (b, false) = inr (b', h) → h = false.
Proof.
  induction kvs as [|kv rest IH]; intros b b' h Hno Hrun;
    cbn [Bind.named_parameters_loop] in Hrun.
  - congruence.
  - destruct (Bind.named_parameter (b, false) kv) as [e|[b1 h1]] eqn:Hstep; [congruence|].
    assert (fst kv ≠ "user_agent") as Hk.
    { destruct kv as [k v]; simpl; intros ->. apply (Hno v). apply list_elem_of_here. }
    pose proof (named_parameter_keeps_flag _ _ _ _ Hk Hstep) as ->.
    eapply IH; [|exact Hrun].
    intros v Hin. apply (Hno v). by apply list_elem_of_further.
Qed.

Lemma named_parameter_typed acc kv :
  match registered_type registered_named_parameters (fst kv) with
  | Some t => has_type (snd kv) t
  | None => true
  end = true →
  ∃ acc', Bind.named_parameter acc kv = inr acc'.
Proof.
  destruct acc as [b h], kv as [k v]. unfold registered_named_parameters.
  cbn [registered_type fst snd Bind.named_parameter].
  rewrite !(String.eqb_sym _ k).
  repeat (destruct (String.eqb k _);
          [destruct v; simpl; intros; try discriminate; eauto|]).
  eauto.
Qed.

Lemma loop_typed kvs : ∀ acc,
  well_typed kvs = true → ∃ acc', Bind.named_parameters_loop kvs acc = inr acc'.
Proof.
  induction kvs as [|kv rest IH]; intros acc Hty;
    cbn [Bind.named_parameters_loop]; [eauto|].
  apply andb_prop in Hty as [Hkv Hrest].
  destruct (named_parameter_typed acc kv Hkv) as [acc' ->]. by apply IH.
Qed.

(** What bind returns always has both robots switches on: lines 176-177
    run after the loop over the named parameters. *)
Lemma CrawlerBind_switches input out :
  CrawlerBind input = inr out →
  respect_robots_txt (bind_data out) = true ∧ log_skipped (bind_data out) = true.
Proof.
  unfold CrawlerBind.
  destruct (Bind.named_parameters_loop _ _) as [e|[b h]]; [done|].
  destruct (negb h); [done|].
  destruct (inputs input) as [|[] rest]; try done.
  destruct (Bind.push_urls _ _); [done|].
  intros [= <-]. done.
Qed.

End BindFacts.

(** C5. Without the [user_agent] named parameter the statement fails in
    [CrawlerBind]: [crawl_urls] yields the exception and no machine at all,
    so nothing was initialised, no request was issued and no row produced.
    With named parameters of their registered types the exception is the
    [BinderException] of line 163. *)
Theorem missing_user_agent_fails_at_bind (input : TableFunctionBindInput) :
  (∀ v, (("user_agent" : string), v) ∉ named_parameters input) →
  (∃ e, CrawlerBind input = inl e ∧
        ∀ (H1 : HttpClient) (H2 : RobotsParser) (H3 : Platform) gaps m,
          crawl_urls gaps input m = inl e) ∧
  (well_typed (named_parameters input) = true →
   CrawlerBind input = inl (BinderException "crawl_urls requires 'user_agent' parameter")).
Proof.
  intros Hno.
  assert (∀ b h, Bind.named_parameters_loop (named_parameters input)
                   (CrawlerBindData_zero, false) = inr (b, h) → h = false) as Hflag.
  { intros b h. by apply loop_keeps_flag. }
  split.
  - unfold crawl_urls, CrawlerBind.
    destruct (Bind.named_parameters_loop _ _) as [e|[b h]] eqn:Hloop.
    + exists e. done.
    + rewrite (Hflag _ _ eq_refl). simpl. eauto.
  - intros Hty. unfold CrawlerBind.
    destruct (loop_typed _ (CrawlerBindData_zero, false) Hty) as [[b h] Hloop].
    rewrite Hloop, (Hflag _ _ Hloop). done.
Qed.

Lemma missing_user_agent_fails_at_bind_witness :
  let input := World.query ["https://example.com/a"] [("timeout_seconds", VInteger 10)] in
  (∃ e, CrawlerBind input = inl e ∧
        ∀ (H1 : HttpClient) (H2 : RobotsParser) (H3 : Platform) gaps m,
          crawl_urls gaps input m = inl e) ∧
  (well_typed (named_parameters input) = true →
   CrawlerBind input = inl (BinderException "crawl_urls requires 'user_agent' parameter")).
Proof.
  apply (missing_user_agent_fails_at_bind
           (World.query ["https://example.com/a"] [("timeout_seconds", VInteger 10)])).
  intros v Hin. simpl in Hin.
  apply list_elem_of_In in Hin. destruct Hin as [Heq|[]]. discriminate Heq.
Defined.

(** C2, at the failing input. [respect_robots_txt := false] is read by the
    loop over the named parameters and then overwritten by line 176: the
    bind data says [true], robots.txt is fetched, and the disallowed URL
    is skipped instead of crawled. *)
Theorem respect_robots_txt_false_is_overridden :
  let input := World.query ["https://example.com/private/secret"]
                 [("user_agent", VVarchar "bot"); ("respect_robots_txt", VBoolean false)] in
  respect_robots_txt (bound input) = true ∧
  ∃ m, World.run input (boot one_hour []) = inr (Ret tt m) ∧
       map (λ e, (ev_kind e, ev_url e)) (trace m) =
         [(RobotsRequest, "https://example.com/robots.txt")] ∧
       emitted m =
         [[VVarchar "https://example.com/private/secret"; VVarchar "example.com";
           VInteger (-1); VNull; VNull; VInteger 0; VTimestamp (one_hour + World.ms 5);
           VVarchar "robots.txt disallow"]].
Proof.
  cbv zeta. split; [reflexivity|].
  eexists. split; [vm_compute; reflexivity|]. vm_compute. split; reflexivity.
Qed.

(** ** The machine *)

(** Everything but the clock and the signal flags is as before. *)
Definition same_memory (m m' : Machine) : Prop :=
  trace m' = trace m ∧ emitted m' = emitted m ∧
  global_state m' = global_state m ∧ local_state m' = local_state m.

(** The index into the URL list and the statistics. *)
Definition counters (g : CrawlerGlobalState) : nat * Z * Z * Z * Z :=
  (current_url_index g, total_crawled g, total_failed g, total_skipped g, total_cancelled g).

(** The fields of a domain's state that pacing and robots checks read. *)
Definition policy (d : DomainState) : Q * RobotsRules * bool :=
  (crawl_delay_seconds d, rules d, robots_fetched d).

Section MachineFacts.

Context `{HttpClient} `{RobotsParser} `{Platform}.

Lemma advance_cases d m :
  match Mach.advance d m with
  | Ret _ m' => clock m' = clock m + d ∧ same_memory m m'
  | Exit code m' => code = 1 ∧ same_memory m m'
  end.
Proof.
  unfold Mach.advance, same_memory.
  destruct (Mach.deliver_sigints _ _ _) as [[s ps] [t|]]; simpl; auto.
Qed.

(** The request [http_fetch] puts on the wire when called in [m]. *)
Definition request_event (kind : RequestKind) (url : string) (config : RetryConfig)
    (ua : string) (m : Machine) : Event :=
  mkEvent kind url config ua (clock m)
    (clock m + Z.of_N (snd (Fetch url config ua (clock m)))).

Lemma http_fetch_cases kind url config ua m :
  let e := request_event kind url config ua m in
  match http_fetch kind url config ua m with
  | Ret r m' =>
      r = fst (Fetch url config ua (clock m)) ∧ clock m' = ev_finish e ∧
      trace m' = trace m ++ [e] ∧ emitted m' = emitted m ∧
      global_state m' = global_state m ∧ local_state m' = local_state m
  | Exit _ m' =>
      trace m' = trace m ++ [e] ∧ emitted m' = emitted m ∧
      global_state m' = global_state m ∧ local_state m' = local_state m
  end.
Proof.
  unfold http_fetch, request_event.
  destruct (Fetch url config ua (clock m)) as [response took]; simpl.
  match goal with |- context [Mach.advance ?d ?m0] =>
    pose proof (advance_cases d m0) as Hadv; destruct (Mach.advance d m0) end;
    unfold same_memory in Hadv; simpl in Hadv; intuition congruence.
Qed.

Lemma domain_state_update_eq d f g :
  Glob.domain_state (Glob.update_domain d f g) d = f (Glob.domain_state g d).
Proof. unfold Glob.domain_state, Glob.update_domain; simpl. by rewrite lookup_insert_eq. Qed.

Lemma domain_state_update_ne d d' f g :
  d ≠ d' → Glob.domain_state (Glob.update_domain d f g) d' = Glob.domain_state g d'.
Proof.
  intros Hne. unfold Glob.domain_state, Glob.update_domain; simpl.
  by rewrite lookup_insert_ne.
Qed.

(** Creating the entry through [operator[]] changes no domain's state. *)
Lemma domain_state_touch d d' g :
  Glob.domain_state (Glob.update_domain d (λ x, x) g) d' = Glob.domain_state g d'.
Proof.
  destruct (decide (d = d')) as [->|Hne].
  - apply domain_state_update_eq.
  - by apply domain_state_update_ne.
Qed.

Lemma domain_state_with_index v g d :
  Glob.domain_state (Glob.with_index v g) d = Glob.domain_state g d.
Proof. reflexivity. Qed.
Lemma domain_state_with_total_crawled v g d :
  Glob.domain_state (Glob.with_total_crawled v g) d = Glob.domain_state g d.
Proof. reflexivity. Qed.
Lemma domain_state_with_total_failed v g d :
  Glob.domain_state (Glob.with_total_failed v g) d = Glob.domain_state g d.
Proof. reflexivity. Qed.
Lemma domain_state_with_total_skipped v g d :
  Glob.domain_state (Glob.with_total_skipped v g) d = Glob.domain_state g d.
Proof. reflexivity. Qed.
Lemma domain_state_with_total_cancelled v g d :
  Glob.domain_state (Glob.with_total_cancelled v g) d = Glob.domain_state g d.
Proof. reflexivity. Qed.

End MachineFacts.

Create Rewrite HintDb crawl.
#[export] Hint Rewrite @domain_state_update_eq @domain_state_touch
  @domain_state_with_index @domain_state_with_total_crawled
  @domain_state_with_total_failed @domain_state_with_total_skipped
  @domain_state_with_total_cancelled : crawl.

(** One monadic step of a goal: expose the head [bindM]. *)
Ltac step := unfold bindM at 1; cbv beta.

(** ** The phases of one call *)

Section Phases.

Context `{HttpClient} `{RobotsParser} `{Platform}.

(** Whether a call that meets [domain] in [m] fetches its robots.txt. *)
Definition robots_pending (b : CrawlerBindData) (domain : string) (m : Machine) : bool :=
  respect_robots_txt b && negb (robots_fetched (Glob.domain_state (global_state m) domain)).

Definition robots_response (b : CrawlerBindData) (domain : string) (m : Machine) : HttpResponse :=
  fst (Fetch (robots_url domain) robots_config (user_agent b) (clock m)).

(** The state of [domain] once lines 272-300 are through. *)
Definition domain_after_robots (b : CrawlerBindData) (domain : string) (m : Machine)
  : DomainState :=
  let d := Glob.domain_state (global_state m) domain in
  if robots_pending b domain m
  then Dom.with_robots_fetched true (apply_robots_response b (robots_response b domain m) d)
  else d.

Lemma fetch_robots_txt_cases b domain m :
  let e := request_event RobotsRequest (robots_url domain) robots_config (user_agent b) m in
  match fetch_robots_txt b domain m with
  | Ret _ m' =>
      trace m' = trace m ++ (if robots_pending b domain m then [e] else []) ∧
      clock m ≤ clock m' ∧ emitted m' = emitted m ∧ local_state m' = local_state m ∧
      Glob.domain_state (global_state m') domain = domain_after_robots b domain m ∧
      (∀ d', d' ≠ domain →
             Glob.domain_state (global_state m') d' = Glob.domain_state (global_state m) d') ∧
      counters (global_state m') = counters (global_state m)
  | Exit _ m' =>
      robots_pending b domain m = true ∧ trace m' = trace m ++ [e] ∧
      emitted m' = emitted m ∧ global_state m' = global_state m
  end.
Proof.
  intros e. unfold fetch_robots_txt, domain_after_robots, robots_response.
  step. unfold Mach.get at 1. fold (robots_pending b domain m).
  destruct (robots_pending b domain m) eqn:Hpending.
  - step.
    pose proof (http_fetch_cases RobotsRequest (robots_url domain) robots_config
                  (user_agent b) m) as Hfetch.
    destruct (http_fetch _ _ _ _ m) as [response m1|code m1]; simpl in Hfetch.
    + destruct Hfetch as (-> & Hclock & Htrace & Hemitted & Hglobal & Hlocal).
      unfold bindM, Mach.modify_global, Mach.modify; simpl.
      rewrite Hglobal, !domain_state_update_eq.
      repeat split; try done.
      * rewrite Hclock. unfold request_event; simpl. lia.
      * intros d' Hne. by rewrite !domain_state_update_ne.
    + destruct Hfetch as (Htrace & Hemitted & Hglobal & Hlocal). done.
  - unfold retM. rewrite app_nil_r. repeat split; try done; lia.
Qed.

Lemma to_milliseconds_le x : 0 ≤ x → to_milliseconds x * ns_per_ms ≤ x.
Proof.
  intros Hx. unfold to_milliseconds, ns_per_ms.
  rewrite Z.quot_div_nonneg by lia.
  pose proof (Z.mul_div_le x 1000000). lia.
Qed.

(** After the wait, the domain's last fetch lies at least the required
    delay back. *)
Lemma wait_for_crawl_delay_cases domain m :
  let d := Glob.domain_state (global_state m) domain in
  match wait_for_crawl_delay domain m with
  | Ret _ m' =>
      same_memory m m' ∧ clock m ≤ clock m' ∧
      (last_crawl_time d ≤ clock m →
       last_crawl_time d + required_delay_ms d * ns_per_ms ≤ clock m')
  | Exit _ m' => same_memory m m'
  end.
Proof.
  intros d. unfold wait_for_crawl_delay, bindM, Mach.steady_now, Mach.get.
  fold d. set (elapsed := to_milliseconds (clock m - last_crawl_time d)).
  destruct (Z.ltb_spec elapsed (required_delay_ms d)) as [Hlt|Hge].
  - unfold sleep_for_ms.
    match goal with |- context [Mach.advance ?dt m] =>
      pose proof (advance_cases dt m) as Hadv; destruct (Mach.advance dt m) end.
    + destruct Hadv as [Hclock Hmem]. split; [done|].
      assert (0 ≤ Z.of_N (oversleep (clock m) (required_delay_ms d - elapsed))) by lia.
      split; [unfold ns_per_ms in *; nia|].
      intros Hlast. pose proof (to_milliseconds_le (clock m - last_crawl_time d)) as Hms.
      fold elapsed in Hms. unfold ns_per_ms in *. nia.
    + by destruct Hadv.
  - unfold retM. split; [done|]. split; [lia|].
    intros Hlast. pose proof (to_milliseconds_le (clock m - last_crawl_time d)) as Hms.
    fold elapsed in Hms. unfold ns_per_ms in *. nia.
Qed.

Lemma skip_disallowed_run b url domain m :
  ∃ m', skip_disallowed b url domain m =
          Ret (if log_skipped b
               then [skipped_row url domain (GetCurrentTimestamp (clock m))] else []) m' ∧
        clock m' = clock m ∧ signals m' = signals m ∧ trace m' = trace m ∧
        emitted m' = emitted m ∧ local_state m' = local_state m ∧
        current_url_index (global_state m') = current_url_index (global_state m) ∧
        total_skipped (global_state m') = total_skipped (global_state m) + 1 ∧
        (∀ d', policy (Glob.domain_state (global_state m') d') =
               policy (Glob.domain_state (global_state m) d') ∧
               last_crawl_time (Glob.domain_state (global_state m') d') =
               last_crawl_time (Glob.domain_state (global_state m) d')).
Proof.
  unfold skip_disallowed, bindM, Mach.modify_global, Mach.modify, Mach.get, retM.
  eexists. split; [destruct (log_skipped b); reflexivity|].
  simpl. repeat split; try done;
    (destruct (decide (domain = d')) as [->|Hne]; autorewrite with crawl;
     [done | by rewrite domain_state_update_ne]).
Qed.

Lemma fetch_url_cases b url domain m :
  let e := request_event UrlRequest url url_config (user_agent b) m in
  let response := fst (Fetch url url_config (user_agent b) (clock m)) in
  match fetch_url b url domain m with
  | Ret chunk m' =>
      chunk = [result_row url domain response
                 (to_milliseconds (ev_finish e - ev_start e))
                 (GetCurrentTimestamp (ev_finish e))] ∧
      trace m' = trace m ++ [e] ∧ clock m' = ev_finish e ∧
      emitted m' = emitted m ∧ local_state m' = local_state m ∧
      current_url_index (global_state m') = current_url_index (global_state m) ∧
      total_cancelled (global_state m') = total_cancelled (global_state m) ∧
      last_crawl_time (Glob.domain_state (global_state m') domain) = ev_finish e ∧
      policy (Glob.domain_state (global_state m') domain) =
        policy (Glob.domain_state (global_state m) domain) ∧
      (∀ d', d' ≠ domain →
             Glob.domain_state (global_state m') d' = Glob.domain_state (global_state m) d')
  | Exit _ m' =>
      trace m' = trace m ++ [e] ∧ emitted m' = emitted m ∧
      global_state m' = global_state m
  end.
Proof.
  intros e response. unfold fetch_url.
  step. unfold Mach.steady_now at 1, Mach.get at 1. step.
  pose proof (http_fetch_cases UrlRequest url url_config (user_agent b) m) as Hfetch.
  destruct (http_fetch _ _ _ _ m) as [r m1|code m1]; simpl in Hfetch.
  - destruct Hfetch as (-> & Hclock & Htrace & Hemitted & Hglobal & Hlocal).
    fold response. fold e in Hclock, Htrace.
    unfold bindM, Mach.steady_now, Mach.modify_global, Mach.modify, Mach.get, retM.
    destruct (success response); simpl; rewrite Hglobal, Hclock;
      autorewrite with crawl;
      (repeat split; try done; intros d' Hne;
       rewrite domain_state_update_ne by done; autorewrite with crawl;
       by rewrite domain_state_update_ne).
  - destruct Hfetch as (Htrace & Hemitted & Hglobal & Hlocal). done.
Qed.

End Phases.

(** ** One call of [CrawlerFunction] *)

Section Call.

Context `{HttpClient} `{RobotsParser} `{Platform}.

(** Lines 263-270: the URL is taken and its domain's entry created. *)
Definition take_url (url : string) (m : Machine) : Machine :=
  Mach.with_global
    (Glob.update_domain (ExtractDomain url) (λ d, d)
       (Glob.with_index (S (current_url_index (global_state m))) (global_state m))) m.

(** Line 338. *)
Definition cancel (m : Machine) : Machine :=
  Mach.with_global
    (Glob.with_total_cancelled (total_cancelled (global_state m) + 1) (global_state m)) m.

(** A call that finds work to do. *)
Definition takes (b : CrawlerBindData) (m : Machine) (url : string) : Prop :=
  finished (local_state m) = false ∧
  g_shutdown_requested (signals m) = false ∧
  urls b !! current_url_index (global_state m) = Some url.

(** Whether lines 302-303 let the URL through. *)
Definition robots_allow (b : CrawlerBindData) (d : DomainState) (path : string) : bool :=
  negb (respect_robots_txt b && negb (IsAllowed (rules d) path)).

(** The robots.txt request a call issues for [url], if it issues one. *)
Definition robots_events (b : CrawlerBindData) (url : string) (m : Machine) : list Event :=
  if robots_pending b (ExtractDomain url) m
  then [request_event RobotsRequest (robots_url (ExtractDomain url)) robots_config
          (user_agent b) m]
  else [].

Lemma CrawlerFunction_idle b m :
  finished (local_state m) = true ∨ g_shutdown_requested (signals m) = true →
  CrawlerFunction b m = Ret [] m.
Proof.
  intros Hidle. unfold CrawlerFunction, bindM, Mach.shutdown_requested, Mach.get, retM.
  cbv beta. destruct Hidle as [-> | ->]; [done|]. by rewrite orb_true_r.
Qed.

Lemma CrawlerFunction_done b m :
  finished (local_state m) = false → g_shutdown_requested (signals m) = false →
  urls b !! current_url_index (global_state m) = None →
  CrawlerFunction b m = Ret [] (Mach.with_local (mkCrawlerLocalState true) m).
Proof.
  intros Hfin Hflag Hurl.
  unfold CrawlerFunction, Mach.shutdown_requested, Mach.get, Mach.modify.
  step. rewrite Hfin. step. rewrite Hflag. cbn [orb]. step. by rewrite Hurl.
Qed.

Lemma CrawlerFunction_takes b m url :
  takes b m url →
  let domain := ExtractDomain url in
  CrawlerFunction b m =
    match fetch_robots_txt b domain (take_url url m) with
    | Exit code m' => Exit code m'
    | Ret _ m1 =>
        if robots_allow b (Glob.domain_state (global_state m1) domain) (ExtractPath url) then
          match wait_for_crawl_delay domain m1 with
          | Exit code m' => Exit code m'
          | Ret _ m2 =>
              if g_shutdown_requested (signals m2) then Ret [] (cancel m2)
              else fetch_url b url domain m2
          end
        else skip_disallowed b url domain m1
    end.
Proof.
  intros (Hfin & Hflag & Hurl) domain.
  unfold CrawlerFunction, Mach.shutdown_requested, Mach.get, Mach.modify_global, Mach.modify.
  step. rewrite Hfin. step. rewrite Hflag. cbn [orb]. step. rewrite Hurl. step.
  unfold process_url. fold domain. unfold Mach.modify_global, Mach.modify, Mach.get.
  step. unfold bindM at 1.
  change (Mach.with_global _ (Mach.with_global _ m)) with (take_url url m).
  destruct (fetch_robots_txt b domain (take_url url m)) as [[] m1|code m1]; [|done].
  unfold robots_allow. step.
  destruct (respect_robots_txt b && negb _); cbn [negb]; [done|].
  unfold bindM at 1.
  destruct (wait_for_crawl_delay domain m1) as [[] m2|code m2]; [|done].
  unfold Mach.shutdown_requested, Mach.get. step.
  destruct (g_shutdown_requested (signals m2)); done.
Qed.

Lemma take_url_domain_state url m d :
  Glob.domain_state (global_state (take_url url m)) d = Glob.domain_state (global_state m) d.
Proof. unfold take_url; simpl. by autorewrite with crawl. Qed.

Lemma robots_pending_take b url m :
  robots_pending b (ExtractDomain url) (take_url url m) =
  robots_pending b (ExtractDomain url) m.
Proof. unfold robots_pending. by rewrite take_url_domain_state. Qed.

Lemma domain_after_robots_take b url m :
  domain_after_robots b (ExtractDomain url) (take_url url m) =
  domain_after_robots b (ExtractDomain url) m.
Proof.
  unfold domain_after_robots, robots_response.
  by rewrite robots_pending_take, take_url_domain_state.
Qed.

(** Lines 263-300 together, read from the machine the call started in. *)
Lemma robots_step_cases b url m :
  let domain := ExtractDomain url in
  match fetch_robots_txt b domain (take_url url m) with
  | Ret _ m1 =>
      trace m1 = trace m ++ robots_events b url m ∧
      clock m ≤ clock m1 ∧ emitted m1 = emitted m ∧ local_state m1 = local_state m ∧
      Glob.domain_state (global_state m1) domain = domain_after_robots b domain m ∧
      (∀ d', d' ≠ domain →
             Glob.domain_state (global_state m1) d' = Glob.domain_state (global_state m) d') ∧
      current_url_index (global_state m1) = S (current_url_index (global_state m)) ∧
      total_cancelled (global_state m1) = total_cancelled (global_state m)
  | Exit _ m1 =>
      robots_pending b domain m = true ∧
      trace m1 = trace m ++ robots_events b url m ∧ emitted m1 = emitted m ∧
      (∀ d', Glob.domain_state (global_state m1) d' = Glob.domain_state (global_state m) d')
  end.
Proof.
  intros domain.
  pose proof (fetch_robots_txt_cases b domain (take_url url m)) as Hcases.
  cbv zeta in Hcases. unfold domain in Hcases.
  rewrite robots_pending_take, domain_after_robots_take in Hcases.
  change (request_event RobotsRequest (robots_url (ExtractDomain url)) robots_config
            (user_agent b) (take_url url m))
    with (request_event RobotsRequest (robots_url (ExtractDomain url)) robots_config
            (user_agent b) m) in Hcases.
  fold (robots_events b url m) in Hcases. fold domain in Hcases.
  change (trace (take_url url m)) with (trace m) in Hcases.
  change (emitted (take_url url m)) with (emitted m) in Hcases.
  change (clock (take_url url m)) with (clock m) in Hcases.
  change (local_state (take_url url m)) with (local_state m) in Hcases.
  destruct (fetch_robots_txt b domain (take_url url m)) as [[] m1|code m1].
  - destruct Hcases as (Htrace & Hclock & Hemitted & Hlocal & Hdomain & Hothers & Hcounters).
    unfold counters in Hcounters. simpl in Hcounters.
    injection Hcounters as Hindex _ _ _ Hcancelled.
    repeat split; try done.
    intros d' Hne. rewrite Hothers by done. apply take_url_domain_state.
  - destruct Hcases as (Hpending & Htrace & Hemitted & Hglobal).
    repeat split; try done.
    + rewrite Htrace. unfold robots_events. fold domain. by rewrite Hpending.
    + intros d'. rewrite Hglobal. apply take_url_domain_state.
Qed.

(** Whatever the call does, its first request, when robots.txt is still
    to be fetched for the domain, is the robots.txt request; any further
    request is the one for the URL itself. *)
Lemma CrawlerFunction_requests b m url :
  takes b m url →
  ∃ rest, trace (machine_of (CrawlerFunction b m)) = trace m ++ robots_events b url m ++ rest ∧
          (rest = [] ∨
           ∃ e, rest = [e] ∧ ev_kind e = UrlRequest ∧ ev_url e = url ∧
                ev_config e = url_config ∧ ev_user_agent e = user_agent b).
Proof.
  intros Htakes. rewrite (CrawlerFunction_takes _ _ _ Htakes). cbv zeta.
  pose proof (robots_step_cases b url m) as Hrobots. cbv zeta in Hrobots.
  destruct (fetch_robots_txt _ _ _) as [[] m1|code m1].
  - destruct Hrobots as (Htrace1 & _).
    destruct (robots_allow _ _ _).
    + pose proof (wait_for_crawl_delay_cases (ExtractDomain url) m1) as Hwait.
      destruct (wait_for_crawl_delay _ m1) as [[] m2|code m2]; cbv zeta in Hwait.
      * destruct Hwait as ((Htrace2 & _) & _).
        destruct (g_shutdown_requested (signals m2)).
        -- exists []. simpl. rewrite Htrace2, Htrace1, app_nil_r. auto.
        -- pose proof (fetch_url_cases b url (ExtractDomain url) m2) as Hurl.
           cbv zeta in Hurl.
           destruct (fetch_url _ _ _ m2) as [chunk m3|code m3]; simpl;
             [destruct Hurl as (_ & -> & _) | destruct Hurl as (-> & _)];
             rewrite Htrace2, Htrace1, <- app_assoc; eexists; (split; [reflexivity|]);
             right; eexists; (split; [reflexivity|]); done.
      * destruct Hwait as (Htrace2 & _). exists []. simpl.
        rewrite Htrace2, Htrace1, app_nil_r. auto.
    + destruct (skip_disallowed_run b url (ExtractDomain url) m1)
        as (m' & -> & _ & _ & Htrace' & _).
      exists []. simpl. rewrite Htrace', Htrace1, app_nil_r. auto.
  - destruct Hrobots as (_ & Htrace1 & _).
    exists []. simpl. rewrite Htrace1, app_nil_r. auto.
Qed.

End Call.

(** ** Calls that no SIGINT disturbs *)

Section Quiet.

Context `{HttpClient} `{RobotsParser} `{Platform}.

(** No SIGINT is still to come and none has asked for shutdown. *)
Definition quiet (m : Machine) : Prop :=
  pending_sigints m = [] ∧ g_shutdown_requested (signals m) = false.

Lemma advance_quiet d m :
  quiet m → ∃ m', Mach.advance d m = Ret tt m' ∧ quiet m'.
Proof.
  intros [Hpending Hflag]. unfold Mach.advance. rewrite Hpending. simpl.
  eexists; split; [reflexivity|]. split; simpl; done.
Qed.

Lemma http_fetch_quiet kind url config ua m :
  quiet m → ∃ r m', http_fetch kind url config ua m = Ret r m' ∧ quiet m'.
Proof.
  intros Hq. unfold http_fetch.
  destruct (Fetch url config ua (clock m)) as [response took].
  match goal with |- context [Mach.advance ?d ?m0] =>
    destruct (advance_quiet d m0) as (m' & -> & Hq') end; [exact Hq|eauto].
Qed.

Lemma fetch_robots_txt_quiet b domain m :
  quiet m → ∃ m', fetch_robots_txt b domain m = Ret tt m' ∧ quiet m'.
Proof.
  intros Hq. unfold fetch_robots_txt, Mach.get. step.
  destruct (_ && _); [|unfold retM; eauto].
  step.
  destruct (http_fetch_quiet RobotsRequest (robots_url domain) robots_config
              (user_agent b) m Hq) as (r & m1 & -> & Hq1).
  unfold bindM, Mach.modify_global, Mach.modify. eexists; split; [reflexivity|exact Hq1].
Qed.

Lemma wait_for_crawl_delay_quiet domain m :
  quiet m → ∃ m', wait_for_crawl_delay domain m = Ret tt m' ∧ quiet m'.
Proof.
  intros Hq. unfold wait_for_crawl_delay, bindM, Mach.steady_now, Mach.get.
  destruct (Z.ltb _ _); [|unfold retM; eauto].
  unfold sleep_for_ms. by apply advance_quiet.
Qed.

Lemma fetch_url_quiet b url domain m :
  quiet m → ∃ chunk m', fetch_url b url domain m = Ret chunk m'.
Proof.
  intros Hq. unfold fetch_url, Mach.steady_now, Mach.get. step. step.
  destruct (http_fetch_quiet UrlRequest url url_config (user_agent b) m Hq)
    as (r & m1 & -> & _).
  unfold bindM, Mach.modify_global, Mach.modify, retM.
  destruct (success r); eauto.
Qed.

End Quiet.

(** ** Robots policy and what reaches the HTTP client *)

Section Policy.

Context `{HttpClient} `{RobotsParser} `{Platform}.

(** C9. A call that takes [url] requests robots.txt only at
    ["https://" ++ ExtractDomain url ++ "/robots.txt"], whatever the scheme
    of [url]; and when robots.txt is honoured and not yet fetched for the
    domain, that request is the first thing the call puts on the wire. *)
Theorem robots_txt_requested_over_https b m url :
  takes b m url →
  let domain := ExtractDomain url in
  ∃ evs, trace (machine_of (CrawlerFunction b m)) = trace m ++ evs ∧
    (∀ e, e ∈ evs → ev_kind e = RobotsRequest →
          ev_url e = ("https://" ++ domain ++ "/robots.txt")%string) ∧
    (respect_robots_txt b = true →
     robots_fetched (Glob.domain_state (global_state m) domain) = false →
     ∃ e rest, evs = e :: rest ∧ ev_kind e = RobotsRequest ∧
               ev_url e = ("https://" ++ domain ++ "/robots.txt")%string ∧
               ev_user_agent e = user_agent b).
Proof.
  intros Htakes domain.
  destruct (CrawlerFunction_requests b m url Htakes) as (rest & Htrace & Hrest).
  exists (robots_events b url m ++ rest). split; [exact Htrace|]. split.
  - intros e Hin Hkind. apply elem_of_app in Hin as [Hin|Hin].
    + unfold robots_events in Hin. destruct (robots_pending _ _ _).
      * apply list_elem_of_singleton in Hin as ->. reflexivity.
      * by apply elem_of_nil in Hin.
    + destruct Hrest as [->|(e' & -> & Hk & _)].
      * by apply elem_of_nil in Hin.
      * apply list_elem_of_singleton in Hin as ->. congruence.
  - intros Hrespect Hfetched. unfold robots_events, robots_pending.
    fold domain. rewrite Hrespect, Hfetched. simpl.
    eexists _, rest. repeat split; reflexivity.
Qed.

(** C1, as the code has it. A call that takes a URL whose path the rules
    held for its domain (after the robots.txt step) disallow issues no
    request for that URL: at most the robots.txt request goes out.  Unless
    a second SIGINT ends the process during that request, the call returns
    one row [url, domain, -1, NULL, NULL, 0, now, "robots.txt disallow"]
    when [log_skipped] is set in the bind data, and no row otherwise.  The
    mark is the text of the [error] column; there is no [error_type]
    column. *)
Theorem disallowed_url_is_skipped b m url :
  takes b m url →
  let domain := ExtractDomain url in
  robots_allow b (domain_after_robots b domain m) (ExtractPath url) = false →
  (∃ m', trace m' = trace m ++ robots_events b url m ∧ emitted m' = emitted m ∧
         (CrawlerFunction b m =
            Ret (if log_skipped b
                 then [skipped_row url domain (GetCurrentTimestamp (clock m'))]
                 else []) m' ∨
          ∃ code, CrawlerFunction b m = Exit code m' ∧ robots_pending b domain m = true)) ∧
  (∀ ts, let row := skipped_row url domain ts in
         column Bind.names row "http_status" = Some (VInteger (-1)) ∧
         column Bind.names row "body" = Some VNull ∧
         column Bind.names row "error" = Some (VVarchar "robots.txt disallow") ∧
         column Bind.names row "error_type" = None).
Proof.
  intros Htakes domain Hdis. split; [|intros ts; repeat split].
  rewrite (CrawlerFunction_takes _ _ _ Htakes). cbv zeta. fold domain.
  pose proof (robots_step_cases b url m) as Hrobots. cbv zeta in Hrobots.
  fold domain in Hrobots.
  destruct (fetch_robots_txt _ _ _) as [[] m1|code m1].
  - destruct Hrobots as (Htrace1 & _ & Hemitted1 & _ & Hdomain & _).
    rewrite Hdomain, Hdis.
    destruct (skip_disallowed_run b url domain m1)
      as (m' & Hrun & Hclock & _ & Htrace' & Hemitted' & _).
    exists m'. rewrite Htrace', Hemitted', Hclock. repeat split; try done. by left.
  - destruct Hrobots as (Hpending & Htrace1 & Hemitted1 & _).
    exists m1. repeat split; try done. right. eauto.
Qed.

(** C8, as the code has it. No input string is rejected: when no SIGINT
    interferes and the robots rules held for its extracted domain let its
    extracted path through, the string is handed to [HttpClient::Fetch] as
    it is and the row reports what the HTTP client answered.  A string
    without ["://"] counts as the empty domain with path ["/"]. *)
Theorem every_input_string_is_fetched b m url :
  takes b m url → pending_sigints m = [] →
  let domain := ExtractDomain url in
  robots_allow b (domain_after_robots b domain m) (ExtractPath url) = true →
  (Str.find "://" 0 url = None → domain = "" ∧ ExtractPath url = "/") ∧
  ∃ e m',
    ev_kind e = UrlRequest ∧ ev_url e = url ∧
    trace m' = trace m ++ robots_events b url m ++ [e] ∧
    let response := fst (Fetch url url_config (user_agent b) (ev_start e)) in
    CrawlerFunction b m =
      Ret [result_row url domain response (to_milliseconds (ev_finish e - ev_start e))
             (GetCurrentTimestamp (ev_finish e))] m' ∧
    column Bind.names (result_row url domain response
                         (to_milliseconds (ev_finish e - ev_start e))
                         (GetCurrentTimestamp (ev_finish e))) "error"
      = Some (varchar_or_null (error response)).
Proof.
  intros Htakes Hpending domain Hallow. split.
  { intros Hnone. unfold domain, ExtractDomain, ExtractPath. by rewrite Hnone. }
  rewrite (CrawlerFunction_takes _ _ _ Htakes). cbv zeta. fold domain.
  assert (quiet (take_url url m)) as Hq0.
  { split; [exact Hpending|]. apply Htakes. }
  destruct (fetch_robots_txt_quiet b domain _ Hq0) as (m1 & Hrun1 & Hq1).
  pose proof (robots_step_cases b url m) as Hrobots. cbv zeta in Hrobots.
  fold domain in Hrobots. rewrite Hrun1 in *.
  destruct Hrobots as (Htrace1 & _ & _ & _ & Hdomain & _).
  rewrite Hdomain, Hallow.
  destruct (wait_for_crawl_delay_quiet domain m1 Hq1) as (m2 & Hrun2 & Hq2).
  pose proof (wait_for_crawl_delay_cases domain m1) as Hwait.
  rewrite Hrun2 in *. destruct Hwait as ((Htrace2 & _) & _).
  rewrite (proj2 Hq2).
  pose proof (fetch_url_cases b url domain m2) as Hurl. cbv zeta in Hurl.
  destruct (fetch_url_quiet b url domain m2 Hq2) as (chunk & m' & Hrun3).
  rewrite Hrun3 in *. destruct Hurl as (-> & Htrace3 & _).
  exists (request_event UrlRequest url url_config (user_agent b) m2), m'.
  repeat split; try done.
  rewrite Htrace3, Htrace2, Htrace1. by rewrite <- app_assoc.
Qed.

(** C10. Once the URL has been taken from the list, if the shutdown flag
    is found set when the wait for the crawl delay is over, the call ends
    with an empty chunk: the URL is consumed (the index has moved on), no
    request for it goes out, no row is produced for it and only
    [total_cancelled] records it. *)
Theorem url_taken_before_shutdown_is_dropped b m url m1 m2 :
  takes b m url →
  let domain := ExtractDomain url in
  fetch_robots_txt b domain (take_url url m) = Ret tt m1 →
  robots_allow b (Glob.domain_state (global_state m1) domain) (ExtractPath url) = true →
  wait_for_crawl_delay domain m1 = Ret tt m2 →
  g_shutdown_requested (signals m2) = true →
  CrawlerFunction b m = Ret [] (cancel m2) ∧
  trace (cancel m2) = trace m ++ robots_events b url m ∧
  emitted (cancel m2) = emitted m ∧
  current_url_index (global_state (cancel m2)) = S (current_url_index (global_state m)) ∧
  total_cancelled (global_state (cancel m2)) = total_cancelled (global_state m) + 1.
Proof.
  intros Htakes domain Hrun1 Hallow Hrun2 Hflag.
  rewrite (CrawlerFunction_takes _ _ _ Htakes). cbv zeta. fold domain.
  rewrite Hrun1, Hallow, Hrun2, Hflag. split; [done|].
  pose proof (robots_step_cases b url m) as Hrobots. cbv zeta in Hrobots.
  fold domain in Hrobots. rewrite Hrun1 in Hrobots.
  destruct Hrobots as (Htrace1 & _ & Hemitted1 & _ & _ & _ & Hindex & Hcancelled).
  pose proof (wait_for_crawl_delay_cases domain m1) as Hwait.
  rewrite Hrun2 in Hwait. destruct Hwait as ((Htrace2 & Hemitted2 & Hglobal2 & _) & _).
  unfold cancel; simpl. rewrite Htrace2, Hemitted2, Hglobal2.
  repeat split; try done. by rewrite Hcancelled.
Qed.

End Policy.

Lemma robots_txt_requested_over_https_witness :
  let m := started one_hour [] in
  ∃ evs, trace (machine_of (World.crawl World.plain m)) = trace m ++ evs ∧
    (∀ e, e ∈ evs → ev_kind e = RobotsRequest →
          ev_url e = "https://example.com/robots.txt") ∧
    (respect_robots_txt World.plain = true →
     robots_fetched (Glob.domain_state (global_state m) "example.com") = false →
     ∃ e rest, evs = e :: rest ∧ ev_kind e = RobotsRequest ∧
               ev_url e = "https://example.com/robots.txt" ∧
               ev_user_agent e = user_agent World.plain).
Proof.
  apply (@robots_txt_requested_over_https World.http World.robots World.platform
           World.plain (started one_hour []) "http://example.com/a").
  vm_compute. repeat split.
Defined.

Lemma disallowed_url_is_skipped_witness :
  let m := started one_hour [] in
  let url := "https://example.com/private/secret" in
  (∃ m', trace m' = trace m ++ @robots_events World.http World.secret url m ∧
         emitted m' = emitted m ∧
         (World.crawl World.secret m =
            Ret (if log_skipped World.secret
                 then [skipped_row url "example.com"
                         (@GetCurrentTimestamp World.platform (clock m'))]
                 else []) m' ∨
          ∃ code, World.crawl World.secret m = Exit code m' ∧
                  robots_pending World.secret "example.com" m = true)) ∧
  (∀ ts, let row := skipped_row url "example.com" ts in
         column Bind.names row "http_status" = Some (VInteger (-1)) ∧
         column Bind.names row "body" = Some VNull ∧
         column Bind.names row "error" = Some (VVarchar "robots.txt disallow") ∧
         column Bind.names row "error_type" = None).
Proof.
  apply (@disallowed_url_is_skipped World.http World.robots World.platform
           World.secret (started one_hour []) "https://example.com/private/secret").
  - vm_compute. repeat split.
  - vm_compute. reflexivity.
Defined.

(** The specification's reading of the row of a skipped URL. *)
Definition reports_robots_disallowed (names : list string) (chunk : DataChunk) : Prop :=
  ∃ row, chunk = [row] ∧
         column names row "http_status" = Some (VInteger (-1)) ∧
         column names row "error_type" = Some (VVarchar "robots_disallowed") ∧
         column names row "body" = Some VNull.

(** With [log_skipped] on, the one row written for the disallowed
    [/private/secret] carries no [error_type = robots_disallowed]. *)
Lemma disallowed_url_row_has_no_error_type :
  let m := started one_hour [] in
  takes World.secret m "https://example.com/private/secret" ∧
  log_skipped World.secret = true ∧
  @robots_allow World.robots World.secret
    (@domain_after_robots World.http World.robots World.secret "example.com" m)
    "/private/secret" = false ∧
  chunk_of (World.crawl World.secret m) =
    [[VVarchar "https://example.com/private/secret"; VVarchar "example.com";
      VInteger (-1); VNull; VNull; VInteger 0; VTimestamp (one_hour + World.ms 5);
      VVarchar "robots.txt disallow"]] ∧
  ¬ reports_robots_disallowed Bind.names (chunk_of (World.crawl World.secret m)).
Proof.
  cbv zeta. split; [vm_compute; repeat split|].
  split; [reflexivity|]. split; [vm_compute; reflexivity|].
  split; [vm_compute; reflexivity|].
  intros (row & Hchunk & _ & Hcol & _). revert Hchunk Hcol.
  vm_compute. intros [= <-]. discriminate.
Qed.

Lemma every_input_string_is_fetched_witness :
  let m := started one_hour [] in
  let url := "example.com/a" in
  (Str.find "://" 0 url = None → ExtractDomain url = "" ∧ ExtractPath url = "/") ∧
  ∃ e m',
    ev_kind e = UrlRequest ∧ ev_url e = url ∧
    trace m' = trace m ++ @robots_events World.http World.no_scheme url m ++ [e] ∧
    let response := fst (@Fetch World.http url url_config (user_agent World.no_scheme)
                           (ev_start e)) in
    World.crawl World.no_scheme m =
      Ret [result_row url (ExtractDomain url) response
             (to_milliseconds (ev_finish e - ev_start e))
             (@GetCurrentTimestamp World.platform (ev_finish e))] m' ∧
    column Bind.names (result_row url (ExtractDomain url) response
                         (to_milliseconds (ev_finish e - ev_start e))
                         (@GetCurrentTimestamp World.platform (ev_finish e))) "error"
      = Some (varchar_or_null (error response)).
Proof.
  apply (@every_input_string_is_fetched World.http World.robots World.platform
           World.no_scheme (started one_hour []) "example.com/a").
  - vm_compute. repeat split.
  - reflexivity.
  - vm_compute. reflexivity.
Defined.

(** An absolute URL with scheme http or https and a non-empty host. *)
Definition absolute_http_url (s : string) : bool :=
  (String.prefix "http://" s || String.prefix "https://" s)
  && negb (String.eqb (ExtractDomain s) "").

(** The string [example.com/a] has neither scheme nor host, yet it is
    requested as it is, and its row reports the HTTP client's error, not
    [invalid_url]. *)
Lemma string_without_scheme_is_fetched :
  let r := World.crawl World.no_scheme (started one_hour []) in
  absolute_http_url "example.com/a" = false ∧
  (∃ e, e ∈ trace (machine_of r) ∧ ev_kind e = UrlRequest ∧ ev_url e = "example.com/a") ∧
  chunk_of r =
    [[VVarchar "example.com/a"; VVarchar ""; VInteger 0; VNull; VNull; VBigint 1;
      VTimestamp (one_hour + World.ms 2); VVarchar "Connection refused"]].
Proof.
  cbv zeta. split; [reflexivity|]. split; [|vm_compute; reflexivity].
  eexists (mkEvent UrlRequest "example.com/a" url_config "bot" _ _).
  split; [|split; reflexivity].
  vm_compute. apply list_elem_of_further, list_elem_of_here.
Qed.

Lemma url_taken_before_shutdown_is_dropped_witness :
  let b := World.three in
  let m := World.after_first in
  let url := "https://example.com/b" in
  let m1 := machine_of (@fetch_robots_txt World.http World.robots b "example.com"
                          (take_url url m)) in
  let m2 := machine_of (@wait_for_crawl_delay World.platform "example.com" m1) in
  World.crawl b m = Ret [] (cancel m2) ∧
  trace (cancel m2) = trace m ++ @robots_events World.http b url m ∧
  emitted (cancel m2) = emitted m ∧
  current_url_index (global_state (cancel m2)) = S (current_url_index (global_state m)) ∧
  total_cancelled (global_state (cancel m2)) = total_cancelled (global_state m) + 1.
Proof.
  cbv zeta.
  apply (@url_taken_before_shutdown_is_dropped World.http World.robots World.platform
           World.three World.after_first "https://example.com/b"
           (machine_of (@fetch_robots_txt World.http World.robots World.three "example.com"
                          (take_url "https://example.com/b" World.after_first)))
           (machine_of (@wait_for_crawl_delay World.platform "example.com"
              (machine_of (@fetch_robots_txt World.http World.robots World.three
                             "example.com"
                             (take_url "https://example.com/b" World.after_first)))))).
  - vm_compute. repeat split.
  - vm_compute. reflexivity.
  - vm_compute. reflexivity.
  - vm_compute. reflexivity.
  - vm_compute. reflexivity.
Defined.

(** A run of three URLs interrupted once, one second in, while the second
    URL waits out the crawl delay: two URLs are consumed, one row comes
    back, the HTTP client saw one page request, and nothing reports the
    second URL. *)
Example interrupted_run_returns_fewer_rows :
  ∃ m, World.run (World.query World.three_urls World.bot)
         (boot one_hour [one_hour + World.ms 1000]) = inr (Ret tt m) ∧
       current_url_index (global_state m) = 2%nat ∧
       total_cancelled (global_state m) = 1 ∧
       map (λ r, r !! 0%nat) (emitted m) = [Some (VVarchar "https://example.com/a")] ∧
       map ev_url (filter (λ e, ev_kind e = UrlRequest) (trace m)) = ["https://example.com/a"].
Proof.
  eexists. split; [vm_compute; reflexivity|].
  vm_compute. repeat split.
Qed.

(** ** The crawl delay of a domain *)

Section Delay.

Context `{HttpClient} `{RobotsParser} `{Platform}.





(** The failure path: the default itself, whatever [min] and [max] are. *)
Lemma robots_failed_delay_default b response d :
  success response = false →
  crawl_delay_seconds (apply_robots_response b response d) = default_crawl_delay b.
Proof. intros Hfail. unfold apply_robots_response. by rewrite Hfail. Qed.

Lemma apply_robots_response_last b response d :
  last_crawl_time (apply_robots_response b response d) = last_crawl_time d.
Proof.
  unfold apply_robots_response.
  destruct (success response); [|done]. simpl. by destruct (crawl_delay _).
Qed.

End Delay.

(** C7, at the failing input. With [min_crawl_delay := 5] and a host whose
    robots.txt cannot be fetched, the delay used for pacing is the default
    of one second, below the minimum: the second page request starts one
    second after the first one finished. *)
Theorem failed_robots_txt_leaves_delay_unclamped :
  let input := World.query ["https://down.example/a"; "https://down.example/b"]
                 [("user_agent", VVarchar "bot"); ("min_crawl_delay", VDouble 5)] in
  (min_crawl_delay (bound input), max_crawl_delay (bound input),
   default_crawl_delay (bound input)) = (5%Q, 60%Q, 1%Q) ∧
  ∃ m, World.run input (boot one_hour []) = inr (Ret tt m) ∧
       crawl_delay_seconds (Glob.domain_state (global_state m) "down.example") = 1%Q ∧
       map (λ e, (ev_kind e, ev_url e, ev_start e - one_hour, ev_finish e - one_hour))
           (trace m) =
         [(RobotsRequest, "https://down.example/robots.txt", 0, World.ms 1);
          (UrlRequest, "https://down.example/a", World.ms 1, World.ms 2);
          (UrlRequest, "https://down.example/b", World.ms 1002, World.ms 1003)].
Proof.
  cbv zeta. split; [reflexivity|].
  eexists. split; [vm_compute; reflexivity|]. vm_compute. split; reflexivity.
Qed.

(** ** Interrupts *)

Section Interrupts.

Context `{HttpClient} `{RobotsParser} `{Platform}.

Lemma to_seconds_lt_3 x : 0 ≤ x → x < 3 * ns_per_s → Z.ltb (to_seconds x) 3 = true.
Proof.
  intros Hx Hlt. apply Z.ltb_lt. unfold to_seconds, ns_per_s in *.
  rewrite Z.quot_div_nonneg by lia. apply Z.div_lt_upper_bound; lia.
Qed.

(** The first SIGINT after [CrawlerInitGlobal]: the handler returns and
    the flag is up. *)
Lemma first_sigint s t :
  g_sigint_count s = 0 →
  SignalHandler SIGINT t s = (mkSignalState true 1 t, false).
Proof. intros Hcount. unfold SignalHandler. rewrite Hcount. reflexivity. Qed.

(** A further SIGINT less than three seconds after the previous one: the
    handler calls [std::exit(1)]. *)
Lemma second_sigint s t :
  1 ≤ g_sigint_count s → 0 ≤ t - g_last_sigint_time s < 3 * ns_per_s →
  snd (SignalHandler SIGINT t s) = true.
Proof.
  intros Hcount Hclose. unfold SignalHandler. simpl.
  rewrite to_seconds_lt_3 by lia.
  destruct (Z.leb_spec 2 (g_sigint_count s + 1)); [done|lia].
Qed.

(** Two SIGINTs less than three seconds apart, the first of them the
    first since [CrawlerInitGlobal]: time that passes the first but not
    the second runs the handler once, and it returns. *)
Lemma deliver_first_only s t1 t2 rest upto :
  g_sigint_count s = 0 → t1 ≤ upto < t2 →
  Mach.deliver_sigints upto (t1 :: t2 :: rest) s =
    (mkSignalState true 1 t1, t2 :: rest, None).
Proof.
  intros Hcount Hupto. simpl.
  destruct (Z.leb_spec t1 upto); [|lia].
  rewrite (first_sigint _ _ Hcount).
  destruct (Z.leb_spec t2 upto); [lia|done].
Qed.

(** Time that passes both runs the handler twice, and the second run
    calls [std::exit(1)]. *)
Lemma deliver_both s t1 t2 rest upto :
  g_sigint_count s = 0 → t1 ≤ t2 → t2 - t1 < 3 * ns_per_s → t2 ≤ upto →
  Mach.deliver_sigints upto (t1 :: t2 :: rest) s =
    (mkSignalState true 2 t2, rest, Some t2).
Proof.
  intros Hcount Horder Hclose Hupto. simpl.
  destruct (Z.leb_spec t1 upto); [|lia].
  rewrite (first_sigint _ _ Hcount).
  destruct (Z.leb_spec t2 upto); [|lia].
  unfold SignalHandler. simpl.
  rewrite to_seconds_lt_3 by lia. done.
Qed.

(** C4. A call has taken [url] and is about to fetch it (robots.txt
    allows it and the wait is over); no SIGINT has been seen since
    [CrawlerInitGlobal]; two are due, at [t1] and at [t2], less than three
    seconds apart, and the first arrives while the page is being fetched.
    - If the second arrives after the response: the first only raises the
      flag.  The fetch is carried through, the call returns the row of the
      page and counts it, and every later call returns the empty chunk
      without taking a URL.  When time then reaches [t2] the process ends
      there with exit code 1, whatever was to run next, with requests, rows
      handed over and crawler state as they were.
    - If the second arrives during the fetch as well: the process ends at
      [t2] with exit code 1 in the middle of the call.  Nothing after it
      runs: the page has no row and is counted nowhere, no further URL is
      taken, and the rows handed over before are as they were. *)
Theorem first_sigint_drains_second_aborts b m url m1 m2 t1 t2 rest :
  takes b m url →
  let domain := ExtractDomain url in
  fetch_robots_txt b domain (take_url url m) = Ret tt m1 →
  robots_allow b (Glob.domain_state (global_state m1) domain) (ExtractPath url) = true →
  wait_for_crawl_delay domain m1 = Ret tt m2 →
  g_sigint_count (signals m2) = 0 →
  g_shutdown_requested (signals m2) = false →
  pending_sigints m2 = t1 :: t2 :: rest →
  clock m2 < t1 → t1 ≤ t2 → t2 - t1 < 3 * ns_per_s →
  let e := request_event UrlRequest url url_config (user_agent b) m2 in
  let response := fst (Fetch url url_config (user_agent b) (clock m2)) in
  t1 ≤ ev_finish e →
  (ev_finish e < t2 →
   ∃ m3,
     CrawlerFunction b m =
       Ret [result_row url domain response (to_milliseconds (ev_finish e - ev_start e))
              (GetCurrentTimestamp (ev_finish e))] m3 ∧
     signals m3 = mkSignalState true 1 t1 ∧ pending_sigints m3 = t2 :: rest ∧
     clock m3 = ev_finish e ∧
     trace m3 = trace m ++ robots_events b url m ++ [e] ∧
     emitted m3 = emitted m ∧
     current_url_index (global_state m3) = S (current_url_index (global_state m)) ∧
     total_crawled (global_state m3) + total_failed (global_state m3) =
       total_crawled (global_state m) + total_failed (global_state m) + 1 ∧
     (∀ t rows,
        let later := Mach.with_clock t (Mach.with_emitted rows m3) in
        CrawlerFunction b later = Ret [] later) ∧
     (∀ t rows d A (k : unit → M A),
        let later := Mach.with_clock t (Mach.with_emitted rows m3) in
        t < t2 ≤ t + d →
        ∃ m4, bindM (Mach.advance d) k later = Exit 1 m4 ∧
              clock m4 = t2 ∧ same_memory later m4)) ∧
  (t2 ≤ ev_finish e →
   ∃ m3,
     (∀ A (k : DataChunk → M A), bindM (CrawlerFunction b) k m = Exit 1 m3) ∧
     clock m3 = t2 ∧
     trace m3 = trace m ++ robots_events b url m ++ [e] ∧
     emitted m3 = emitted m ∧
     global_state m3 = global_state m2 ∧
     current_url_index (global_state m3) = S (current_url_index (global_state m)) ∧
     counters (global_state m3) =
       (S (current_url_index (global_state m)), total_crawled (global_state m),
        total_failed (global_state m), total_skipped (global_state m),
        total_cancelled (global_state m))).
Proof.
  intros Htakes domain Hrun1 Hallow Hrun2 Hcount Hflag Hpending Hbefore Horder Hclose
    e response Hfirst.
  assert (∀ A (k : DataChunk → M A),
            bindM (CrawlerFunction b) k m = bindM (fetch_url b url domain) k m2) as Hcall.
  { intros A k. unfold bindM.
    rewrite (CrawlerFunction_takes _ _ _ Htakes). cbv zeta. fold domain.
    by rewrite Hrun1, Hallow, Hrun2, Hflag. }
  pose proof (fetch_robots_txt_cases b domain (take_url url m)) as Hrobots.
  cbv zeta in Hrobots. rewrite Hrun1 in Hrobots.
  destruct Hrobots as (_ & _ & _ & _ & _ & _ & Hcounters1).
  pose proof (robots_step_cases b url m) as Hstep. cbv zeta in Hstep.
  fold domain in Hstep. rewrite Hrun1 in Hstep.
  destruct Hstep as (Htrace1 & _ & Hemitted1 & _ & _ & _ & Hindex1 & _).
  pose proof (wait_for_crawl_delay_cases domain m1) as Hwait.
  rewrite Hrun2 in Hwait. destruct Hwait as ((Htrace2 & Hemitted2 & Hglobal2 & _) & _).
  unfold counters in Hcounters1. simpl in Hcounters1.
  injection Hcounters1 as _ Hcrawled1 Hfailed1 Hskipped1 Hcancelled1.
  unfold e, request_event in Hfirst. cbn [ev_finish] in Hfirst.
  split.
  - intros Hsecond. unfold e, request_event in Hsecond. cbn [ev_finish] in Hsecond.
    assert (http_fetch UrlRequest url url_config (user_agent b) m2 =
            Ret response
              (Mach.with_clock (ev_finish e)
                 (Mach.with_trace (trace m2 ++ [e])
                    (Mach.with_signals (mkSignalState true 1 t1) (t2 :: rest) m2))))
      as Hfetch.
    { unfold http_fetch, e, response, request_event.
      destruct (Fetch url url_config (user_agent b) (clock m2)) as [r took].
      cbn [fst snd] in *. unfold Mach.advance.
      cbn [clock pending_sigints signals Mach.with_trace].
      by rewrite Hpending, (deliver_first_only _ _ _ _ _ Hcount) by lia. }
    assert (∃ m3, fetch_url b url domain m2 =
                    Ret [result_row url domain response
                           (to_milliseconds (ev_finish e - ev_start e))
                           (GetCurrentTimestamp (ev_finish e))] m3 ∧
                  signals m3 = mkSignalState true 1 t1 ∧
                  pending_sigints m3 = t2 :: rest ∧ clock m3 = ev_finish e ∧
                  trace m3 = trace m2 ++ [e] ∧ emitted m3 = emitted m2 ∧
                  local_state m3 = local_state m2 ∧
                  current_url_index (global_state m3) =
                    current_url_index (global_state m2) ∧
                  total_crawled (global_state m3) + total_failed (global_state m3) =
                    total_crawled (global_state m2) + total_failed (global_state m2) + 1)
      as (m3 & Hrun3 & Hsignals3 & Hpending3 & Hclock3 & Htrace3 & Hemitted3 & Hlocal3 &
          Hindex3 & Hcount3).
    { unfold fetch_url. step. unfold Mach.steady_now at 1, Mach.get at 1. step.
      rewrite Hfetch.
      unfold bindM, Mach.steady_now, Mach.modify_global, Mach.modify, Mach.get, retM.
      destruct (success response); simpl;
        (eexists; split; [reflexivity|]; simpl; repeat split; lia). }
    exists m3. split.
    { rewrite (CrawlerFunction_takes _ _ _ Htakes). cbv zeta. fold domain.
      by rewrite Hrun1, Hallow, Hrun2, Hflag. }
    split; [done|]. split; [done|]. split; [done|].
    split; [by rewrite Htrace3, Htrace2, Htrace1, <- app_assoc|].
    split; [by rewrite Hemitted3, Hemitted2, Hemitted1|].
    split; [by rewrite Hindex3, Hglobal2, Hindex1|].
    split; [rewrite Hcount3, Hglobal2; simpl in *; lia|].
    split.
    + intros t rows later. apply CrawlerFunction_idle. right.
      unfold later. simpl. by rewrite Hsignals3.
    + intros t rows d A k later Ht. unfold bindM, Mach.advance.
      unfold later. cbn [clock pending_sigints signals Mach.with_clock Mach.with_emitted].
      rewrite Hpending3, Hsignals3. simpl.
      destruct (Z.leb_spec t2 (t + d)); [|lia].
      unfold SignalHandler. simpl. rewrite to_seconds_lt_3 by lia. simpl.
      eexists. split; [reflexivity|]. split; [done|]. by unfold same_memory.
  - intros Hsecond. unfold e, request_event in Hsecond. cbn [ev_finish] in Hsecond.
    assert (http_fetch UrlRequest url url_config (user_agent b) m2 =
            Exit 1 (Mach.with_clock t2
                      (Mach.with_signals (mkSignalState true 2 t2) rest
                         (Mach.with_trace (trace m2 ++ [e]) m2))))
      as Hfetch.
    { unfold http_fetch, e, request_event.
      destruct (Fetch url url_config (user_agent b) (clock m2)) as [r took].
      cbn [fst snd] in *. unfold Mach.advance.
      cbn [clock pending_sigints signals Mach.with_trace].
      by rewrite Hpending, (deliver_both _ _ _ _ _ Hcount Horder Hclose) by lia. }
    eexists. split.
    { intros A k. rewrite Hcall. unfold bindM at 1. unfold fetch_url.
      step. unfold Mach.steady_now at 1, Mach.get at 1. step.
      rewrite Hfetch. reflexivity. }
    simpl. split; [done|].
    split; [by rewrite Htrace2, Htrace1, <- app_assoc|].
    split; [by rewrite Hemitted2, Hemitted1|].
    split; [done|].
    split; [by rewrite Hglobal2, Hindex1|].
    unfold counters. rewrite Hglobal2, Hindex1. simpl in *. congruence.
Qed.

End Interrupts.

Lemma first_sigint_drains_second_aborts_witness :
  let b := World.three in
  let m := started one_hour [one_hour + World.ms 10; one_hour + World.ms 900] in
  let url := "https://example.com/a" in
  let t1 := one_hour + World.ms 10 in
  let t2 := one_hour + World.ms 900 in
  let m2 := machine_of (@wait_for_crawl_delay World.platform "example.com"
              (machine_of (@fetch_robots_txt World.http World.robots b "example.com"
                             (take_url url m)))) in
  let e := @request_event World.http UrlRequest url url_config (user_agent b) m2 in
  let response := fst (@Fetch World.http url url_config (user_agent b) (clock m2)) in
  (ev_finish e < t2 →
   ∃ m3,
     World.crawl b m =
       Ret [result_row url "example.com" response
              (to_milliseconds (ev_finish e - ev_start e))
              (@GetCurrentTimestamp World.platform (ev_finish e))] m3 ∧
     signals m3 = mkSignalState true 1 t1 ∧ pending_sigints m3 = [t2] ∧
     clock m3 = ev_finish e ∧
     trace m3 = trace m ++ @robots_events World.http b url m ++ [e] ∧
     emitted m3 = emitted m ∧
     current_url_index (global_state m3) = S (current_url_index (global_state m)) ∧
     total_crawled (global_state m3) + total_failed (global_state m3) =
       total_crawled (global_state m) + total_failed (global_state m) + 1 ∧
     (∀ t rows,
        let later := Mach.with_clock t (Mach.with_emitted rows m3) in
        World.crawl b later = Ret [] later) ∧
     (∀ t rows d A (k : unit → M A),
        let later := Mach.with_clock t (Mach.with_emitted rows m3) in
        t < t2 ≤ t + d →
        ∃ m4, bindM (Mach.advance d) k later = Exit 1 m4 ∧
              clock m4 = t2 ∧ same_memory later m4)) ∧
  (t2 ≤ ev_finish e →
   ∃ m3,
     (∀ A (k : DataChunk → M A), bindM (World.crawl b) k m = Exit 1 m3) ∧
     clock m3 = t2 ∧
     trace m3 = trace m ++ @robots_events World.http b url m ++ [e] ∧
     emitted m3 = emitted m ∧
     global_state m3 = global_state m2 ∧
     current_url_index (global_state m3) = S (current_url_index (global_state m)) ∧
     counters (global_state m3) =
       (S (current_url_index (global_state m)), total_crawled (global_state m),
        total_failed (global_state m), total_skipped (global_state m),
        total_cancelled (global_state m))).
Proof.
  cbv zeta.
  apply (@first_sigint_drains_second_aborts World.http World.robots World.platform
           World.three
           (started one_hour [one_hour + World.ms 10; one_hour + World.ms 900])
           "https://example.com/a"
           (machine_of (@fetch_robots_txt World.http World.robots World.three "example.com"
                          (take_url "https://example.com/a"
                             (started one_hour
                                [one_hour + World.ms 10; one_hour + World.ms 900]))))
           (machine_of (@wait_for_crawl_delay World.platform "example.com"
              (machine_of (@fetch_robots_txt World.http World.robots World.three
                             "example.com"
                             (take_url "https://example.com/a"
                                (started one_hour
                                   [one_hour + World.ms 10; one_hour + World.ms 900]))))))
           (one_hour + World.ms 10) (one_hour + World.ms 900) []).
  - vm_compute. repeat split.
  - vm_compute. reflexivity.
  - vm_compute. reflexivity.
  - vm_compute. reflexivity.
  - vm_compute. reflexivity.
  - vm_compute. reflexivity.
  - vm_compute. reflexivity.
  - vm_compute. reflexivity.
  - vm_compute. discriminate.
  - vm_compute. reflexivity.
  - vm_compute. discriminate.
Defined.

(** The first case in that run: the SIGINT of 10 ms arrives while the
    first page is being fetched (5 ms to 25 ms).  The call still returns
    the row of the page, and the statement then ends with that one row,
    one page request and the other two URLs untouched. *)
Example single_interrupt_drains :
  ∃ row m3 m,
    World.crawl World.three (started one_hour [one_hour + World.ms 10]) = Ret [row] m3 ∧
    row !! 0%nat = Some (VVarchar "https://example.com/a") ∧
    row !! 2%nat = Some (VInteger 200) ∧
    g_shutdown_requested (signals m3) = true ∧
    World.run (World.query World.three_urls World.bot)
      (boot one_hour [one_hour + World.ms 10]) = inr (Ret tt m) ∧
    length (emitted m) = 1%nat ∧
    current_url_index (global_state m) = 1%nat ∧
    map ev_url (trace m) = ["https://example.com/robots.txt"; "https://example.com/a"].
Proof.
  do 3 eexists. split; [vm_compute; reflexivity|].
  split; [reflexivity|]. split; [reflexivity|]. split; [reflexivity|].
  split; [vm_compute; reflexivity|]. vm_compute. repeat split.
Qed.

(** The same in a run of three pages: both SIGINTs arrive while the
    second page is being fetched (2030 ms and 2040 ms in).  The process
    exits at the second one; the row of the first page had been handed
    over and stays, the second page's request is cut short and the third
    URL is never looked at. *)
Example double_interrupt_run :
  let sigints := [one_hour + World.ms 2030; one_hour + World.ms 2040] in
  ∃ m, World.run (World.query World.three_urls World.bot) (boot one_hour sigints)
         = inr (Exit 1 m) ∧
       clock m = one_hour + World.ms 2040 ∧
       current_url_index (global_state m) = 2%nat ∧
       map (λ r, r !! 0%nat) (emitted m) = [Some (VVarchar "https://example.com/a")] ∧
       map ev_url (trace m) =
         ["https://example.com/robots.txt"; "https://example.com/a"; "https://example.com/b"].
Proof.
  cbv zeta. eexists. split; [vm_compute; reflexivity|].
  vm_compute. repeat split.
Qed.

(** ** Pacing *)

(** The host a request goes to, as the crawler names hosts. *)
Definition host (e : Event) : string := ExtractDomain (ev_url e).

Definition is_url_request (e : Event) : bool :=
  match ev_kind e with UrlRequest => true | RobotsRequest => false end.

(** The wait the code derives from a domain's crawl delay, line 329, in
    nanoseconds. *)
Definition delay_ns `{Platform} (g : CrawlerGlobalState) (domain : string) : Z :=
  required_delay_ms (Glob.domain_state g domain) * ns_per_ms.

(** Of any two requests that count and go to the same host, the later one
    starts no earlier than the end of the earlier one plus the host's
    delay. *)
Definition paced `{Platform} (counts : Event → bool) (g : CrawlerGlobalState)
    (tr : list Event) : Prop :=
  ∀ (i j : nat) e1 e2,
    (i < j)%nat → tr !! i = Some e1 → tr !! j = Some e2 →
    counts e1 = true → counts e2 = true → host e1 = host e2 →
    ev_finish e1 + delay_ns g (host e1) ≤ ev_start e2.

(** What a scan keeps true between calls: the URL requests so far are
    paced; a host that was sent a URL request has its robots.txt step
    behind it and remembers an instant no earlier than the end of that
    request; no remembered instant lies in the future. *)
Definition crawl_inv `{Platform} (b : CrawlerBindData) (m : Machine) : Prop :=
  paced is_url_request (global_state m) (trace m) ∧
  (∀ e, e ∈ trace m → is_url_request e = true →
        ev_finish e ≤ last_crawl_time (Glob.domain_state (global_state m) (host e)) ∧
        (respect_robots_txt b = true →
         robots_fetched (Glob.domain_state (global_state m) (host e)) = true)) ∧
  (∀ d, last_crawl_time (Glob.domain_state (global_state m) d) ≤ clock m).

(** A domain's pacing state. *)
Definition pace (d : DomainState) : Z * Q * bool :=
  (last_crawl_time d, crawl_delay_seconds d, robots_fetched d).

Section Pacing.

Context `{HttpClient} `{RobotsParser} `{Platform}.

Lemma delay_ns_eq g g' d :
  crawl_delay_seconds (Glob.domain_state g' d) = crawl_delay_seconds (Glob.domain_state g d) →
  delay_ns g' d = delay_ns g d.
Proof. unfold delay_ns, required_delay_ms. by intros ->. Qed.

Lemma pace_delay_ns g g' d :
  pace (Glob.domain_state g' d) = pace (Glob.domain_state g d) →
  delay_ns g' d = delay_ns g d.
Proof. unfold pace. intros [= _ Hdelay _]. by apply delay_ns_eq. Qed.

Lemma paced_snoc counts g tr e :
  paced counts g tr →
  (counts e = true →
   ∀ e1, e1 ∈ tr → counts e1 = true → host e1 = host e →
         ev_finish e1 + delay_ns g (host e1) ≤ ev_start e) →
  paced counts g (tr ++ [e]).
Proof.
  intros Hpaced Hnew i j e1 e2 Hij Hi Hj Hc1 Hc2 Hhost.
  destruct (decide (j < length tr)%nat) as [Hlt|Hge].
  - rewrite lookup_app_l in Hi, Hj by lia. eauto.
  - rewrite lookup_app_r in Hj by lia.
    destruct (j - length tr)%nat as [|k] eqn:Hk; [|by destruct k].
    injection Hj as <-.
    assert (i < length tr)%nat as Hi' by lia.
    rewrite lookup_app_l in Hi by lia.
    apply Hnew; [done| |done|done]. by eapply list_elem_of_lookup_2.
Qed.

Lemma paced_state counts g g' tr :
  paced counts g tr →
  (∀ e, e ∈ tr → counts e = true → delay_ns g' (host e) = delay_ns g (host e)) →
  paced counts g' tr.
Proof.
  intros Hpaced Hsame i j e1 e2 Hij Hi Hj Hc1 Hc2 Hhost.
  rewrite Hsame; [eauto| by eapply list_elem_of_lookup_2 |done].
Qed.

(** Steps that leave the requests and every domain's pacing state alone
    keep the invariant. *)
Lemma crawl_inv_frame b m m' :
  crawl_inv b m →
  trace m' = trace m → clock m ≤ clock m' →
  (∀ d, pace (Glob.domain_state (global_state m') d) =
        pace (Glob.domain_state (global_state m) d)) →
  crawl_inv b m'.
Proof.
  intros (Hpaced & Hlast & Hclock) Htrace Hle Hpace.
  assert (∀ d, last_crawl_time (Glob.domain_state (global_state m') d) =
               last_crawl_time (Glob.domain_state (global_state m) d) ∧
               robots_fetched (Glob.domain_state (global_state m') d) =
               robots_fetched (Glob.domain_state (global_state m) d)) as Hfields.
  { intros d. specialize (Hpace d). unfold pace in Hpace. by injection Hpace. }
  split; [|split].
  - rewrite Htrace. eapply paced_state; [exact Hpaced|].
    intros e _ _. by apply pace_delay_ns.
  - rewrite Htrace. intros e Hin Hurl.
    destruct (Hfields (host e)) as [-> ->]. by apply Hlast.
  - intros d. destruct (Hfields d) as [-> _]. specialize (Hclock d). lia.
Qed.

(** A host that was sent a URL request has no robots.txt step ahead. *)
Lemma requested_host_not_pending b m e :
  crawl_inv b m → e ∈ trace m → is_url_request e = true →
  robots_pending b (host e) m = false.
Proof.
  intros (_ & Hlast & _) Hin Hurl. unfold robots_pending.
  destruct (respect_robots_txt b) eqn:Hrespect; [|done].
  destruct (Hlast e Hin Hurl) as [_ Hdone]. by rewrite Hdone.
Qed.

Lemma robots_step_inv b domain m :
  crawl_inv b m →
  match fetch_robots_txt b domain m with
  | Ret _ m' =>
      crawl_inv b m' ∧
      (respect_robots_txt b = true →
       robots_fetched (Glob.domain_state (global_state m') domain) = true)
  | Exit _ m' => paced is_url_request (global_state m') (trace m')
  end.
Proof.
  intros Hinv. pose proof Hinv as (Hpaced & Hlast & Hclock).
  pose proof (fetch_robots_txt_cases b domain m) as Hcases. cbv zeta in Hcases.
  destruct (fetch_robots_txt b domain m) as [[] m'|code m'].
  - destruct Hcases as (Htrace & Hle & _ & _ & Hdomain & Hothers & _).
    unfold domain_after_robots in Hdomain.
    destruct (robots_pending b domain m) eqn:Hpending.
    + assert (∀ e, e ∈ trace m → is_url_request e = true → host e ≠ domain) as Hfresh.
      { intros e Hin Hurl Heq.
        pose proof (requested_host_not_pending b m e Hinv Hin Hurl) as Hno.
        rewrite Heq in Hno. congruence. }
      split; [|intros _; by rewrite Hdomain].
      split; [|split].
      * rewrite Htrace. apply paced_snoc; [|done].
        eapply paced_state; [exact Hpaced|].
        intros e Hin Hurl. apply pace_delay_ns. rewrite Hothers; [done|]. by apply Hfresh.
      * rewrite Htrace. intros e Hin Hurl.
        apply elem_of_app in Hin as [Hin|Hin];
          [|apply list_elem_of_singleton in Hin as ->; discriminate Hurl].
        rewrite Hothers by (by apply Hfresh). by apply Hlast.
      * intros d. destruct (decide (d = domain)) as [->|Hne].
        -- rewrite Hdomain. simpl. rewrite apply_robots_response_last.
           specialize (Hclock domain). lia.
        -- rewrite Hothers by done. specialize (Hclock d). lia.
    + assert (∀ d, Glob.domain_state (global_state m') d =
                   Glob.domain_state (global_state m) d) as Hsame.
      { intros d. destruct (decide (d = domain)) as [->|Hne]; [done|by apply Hothers]. }
      split.
      * eapply crawl_inv_frame; [exact Hinv| |done|].
        -- by rewrite Htrace, app_nil_r.
        -- intros d. by rewrite Hsame.
      * intros Hrespect. rewrite Hsame. unfold robots_pending in Hpending.
        rewrite Hrespect in Hpending. simpl in Hpending.
        by apply negb_false_iff in Hpending.
  - destruct Hcases as (_ & Htrace & _ & Hglobal). rewrite Htrace, Hglobal.
    by apply paced_snoc.
Qed.

Lemma url_step_inv b url m :
  let domain := ExtractDomain url in
  crawl_inv b m →
  (respect_robots_txt b = true →
   robots_fetched (Glob.domain_state (global_state m) domain) = true) →
  last_crawl_time (Glob.domain_state (global_state m) domain)
    + delay_ns (global_state m) domain ≤ clock m →
  match fetch_url b url domain m with
  | Ret _ m' => crawl_inv b m'
  | Exit _ m' => paced is_url_request (global_state m') (trace m')
  end.
Proof.
  intros domain (Hpaced & Hlast & Hclock) Hdone Hwaited.
  pose proof (fetch_url_cases b url domain m) as Hcases. cbv zeta in Hcases.
  set (e := request_event UrlRequest url url_config (user_agent b) m) in *.
  assert (host e = domain) as Hhost by reflexivity.
  assert (ev_start e = clock m) as Hstart by reflexivity.
  assert (ev_start e ≤ ev_finish e) as Hspan by (unfold e, request_event; simpl; lia).
  assert (paced is_url_request (global_state m) (trace m ++ [e])) as Hpaced'.
  { apply paced_snoc; [done|]. intros _ e1 Hin Hurl Heq.
    destruct (Hlast e1 Hin Hurl) as [Hfin _]. rewrite Heq, Hhost in *. lia. }
  destruct (fetch_url b url domain m) as [chunk m'|code m'].
  - destruct Hcases as (_ & Htrace & Hclock' & _ & _ & _ & _ & Hlast' & Hpolicy & Hothers).
    unfold policy in Hpolicy. injection Hpolicy as Hdelay _ Hfetched.
    assert (∀ d, delay_ns (global_state m') d = delay_ns (global_state m) d) as Hdelays.
    { intros d. apply delay_ns_eq.
      destruct (decide (d = domain)) as [->|Hne]; [done|by rewrite Hothers]. }
    split; [|split].
    + rewrite Htrace. eapply paced_state; [exact Hpaced'|]. intros; apply Hdelays.
    + rewrite Htrace. intros e1 Hin Hurl.
      destruct (decide (host e1 = domain)) as [Heq|Hne].
      * rewrite Heq, Hlast', Hfetched. split; [|done].
        apply elem_of_app in Hin as [Hin|Hin].
        -- destruct (Hlast e1 Hin Hurl) as [Hfin _]. rewrite Heq in Hfin.
           specialize (Hclock domain). lia.
        -- apply list_elem_of_singleton in Hin as ->. lia.
      * rewrite Hothers by done.
        apply elem_of_app in Hin as [Hin|Hin]; [by apply Hlast|].
        apply list_elem_of_singleton in Hin as ->. by destruct Hne.
    + intros d. destruct (decide (d = domain)) as [->|Hne].
      * rewrite Hlast'. lia.
      * rewrite Hothers by done. specialize (Hclock d). lia.
  - destruct Hcases as (Htrace & _ & Hglobal). by rewrite Htrace, Hglobal.
Qed.

(** Every call keeps the invariant; if the process exits inside the call,
    the requests issued up to then are paced. *)
Lemma CrawlerFunction_inv b m :
  crawl_inv b m →
  match CrawlerFunction b m with
  | Ret _ m' => crawl_inv b m'
  | Exit _ m' => paced is_url_request (global_state m') (trace m')
  end.
Proof.
  intros Hinv.
  destruct (finished (local_state m)) eqn:Hfin;
    [rewrite CrawlerFunction_idle by auto; done|].
  destruct (g_shutdown_requested (signals m)) eqn:Hflag;
    [rewrite CrawlerFunction_idle by auto; done|].
  destruct (urls b !! current_url_index (global_state m)) as [url|] eqn:Hurl.
  2: { rewrite CrawlerFunction_done by done.
       eapply crawl_inv_frame; [exact Hinv|done|simpl; lia|done]. }
  rewrite (CrawlerFunction_takes b m url) by done. cbv zeta.
  set (domain := ExtractDomain url).
  assert (crawl_inv b (take_url url m)) as Hinv0.
  { eapply crawl_inv_frame; [exact Hinv|done|simpl; lia|].
    intros d. by rewrite take_url_domain_state. }
  pose proof (robots_step_inv b domain _ Hinv0) as Hrobots.
  destruct (fetch_robots_txt b domain (take_url url m)) as [[] m1|code m1]; [|done].
  destruct Hrobots as [Hinv1 Hdone1].
  destruct (robots_allow _ _ _).
  - pose proof (wait_for_crawl_delay_cases domain m1) as Hwait. cbv zeta in Hwait.
    destruct (wait_for_crawl_delay domain m1) as [[] m2|code m2].
    + destruct Hwait as ((Htrace2 & Hemitted2 & Hglobal2 & Hlocal2) & Hle2 & Hwaited).
      assert (crawl_inv b m2) as Hinv2.
      { eapply crawl_inv_frame; [exact Hinv1|done|done|]. intros d. by rewrite Hglobal2. }
      destruct (g_shutdown_requested (signals m2)).
      * eapply crawl_inv_frame; [exact Hinv2|done|simpl; lia|done].
      * apply url_step_inv; [done|by rewrite Hglobal2|].
        rewrite Hglobal2. apply Hwaited. apply Hinv1.
    + destruct Hwait as (Htrace2 & _ & Hglobal2 & _). rewrite Htrace2, Hglobal2. apply Hinv1.
  - destruct (skip_disallowed_run b url domain m1)
      as (m' & -> & Hclock' & _ & Htrace' & _ & _ & _ & _ & Hstates).
    eapply crawl_inv_frame; [exact Hinv1|done|lia|].
    intros d. destruct (Hstates d) as [Hpolicy Hlast']. unfold policy in Hpolicy.
    injection Hpolicy as Hdelay _ Hfetched. unfold pace. by rewrite Hlast', Hdelay, Hfetched.
Qed.

(** The delay of a host is settled once a URL request has gone to it: no
    later call changes it.  So the delay read off the final state is the
    one that was in force whenever a request to the host ended. *)
Lemma delay_settled b m e :
  crawl_inv b m → e ∈ trace m → is_url_request e = true →
  delay_ns (global_state (machine_of (CrawlerFunction b m))) (host e) =
  delay_ns (global_state m) (host e).
Proof.
  intros Hinv Hin Hurl.
  destruct (finished (local_state m)) eqn:Hfin;
    [rewrite CrawlerFunction_idle by auto; done|].
  destruct (g_shutdown_requested (signals m)) eqn:Hflag;
    [rewrite CrawlerFunction_idle by auto; done|].
  destruct (urls b !! current_url_index (global_state m)) as [url|] eqn:Hnext;
    [|rewrite CrawlerFunction_done by done; done].
  rewrite (CrawlerFunction_takes b m url) by done. cbv zeta.
  set (domain := ExtractDomain url).
  pose proof (robots_step_cases b url m) as Hrobots. cbv zeta in Hrobots.
  fold domain in Hrobots.
  destruct (fetch_robots_txt b domain (take_url url m)) as [[] m1|code m1];
    [|destruct Hrobots as (_ & _ & _ & Hsame); simpl; apply delay_ns_eq; by rewrite Hsame].
  destruct Hrobots as (_ & _ & _ & _ & Hdomain & Hothers & _).
  assert (Glob.domain_state (global_state m1) (host e) =
          Glob.domain_state (global_state m) (host e)) as Hsame1.
  { destruct (decide (host e = domain)) as [Heq|Hne]; [|by apply Hothers].
    rewrite Heq, Hdomain. unfold domain_after_robots.
    by rewrite <- Heq, (requested_host_not_pending b m e Hinv Hin Hurl). }
  assert (delay_ns (global_state m1) (host e) = delay_ns (global_state m) (host e)) as <-
    by (apply delay_ns_eq; by rewrite Hsame1).
  destruct (robots_allow _ _ _).
  - pose proof (wait_for_crawl_delay_cases domain m1) as Hwait. cbv zeta in Hwait.
    destruct (wait_for_crawl_delay domain m1) as [[] m2|code m2].
    + destruct Hwait as ((_ & _ & Hglobal2 & _) & _). rewrite <- Hglobal2.
      destruct (g_shutdown_requested (signals m2)); [done|].
      pose proof (fetch_url_cases b url domain m2) as Hcases. cbv zeta in Hcases.
      destruct (fetch_url b url domain m2) as [chunk m3|code m3]; simpl.
      * destruct Hcases as (_ & _ & _ & _ & _ & _ & _ & _ & Hpolicy & Hothers3).
        unfold policy in Hpolicy. injection Hpolicy as Hdelay _ _.
        apply delay_ns_eq.
        destruct (decide (host e = domain)) as [->|Hne]; [done|by rewrite Hothers3].
      * destruct Hcases as (_ & _ & Hglobal3). by rewrite Hglobal3.
    + destruct Hwait as (_ & _ & Hglobal2 & _). simpl. by rewrite Hglobal2.
  - destruct (skip_disallowed_run b url domain m1)
      as (m' & -> & _ & _ & _ & _ & _ & _ & _ & Hstates). simpl.
    destruct (Hstates (host e)) as [Hpolicy _]. unfold policy in Hpolicy.
    injection Hpolicy as Hdelay _ _. by apply delay_ns_eq.
Qed.

Variable between_calls : Z → N.

Lemma scan_inv fuel b : ∀ m,
  crawl_inv b m →
  match scan between_calls fuel b m with
  | Ret _ m' => crawl_inv b m'
  | Exit _ m' => paced is_url_request (global_state m') (trace m')
  end.
Proof.
  induction fuel as [|fuel IH]; intros m Hinv; [done|].
  cbn [scan]. unfold Mach.steady_now, Mach.get. step. step.
  pose proof (advance_cases (Z.of_N (between_calls (clock m))) m) as Hadv.
  destruct (Mach.advance _ m) as [[] m1|code m1].
  - destruct Hadv as (Hclock1 & Htrace1 & _ & Hglobal1 & _).
    assert (crawl_inv b m1) as Hinv1.
    { eapply crawl_inv_frame; [exact Hinv|done|lia|]. intros d. by rewrite Hglobal1. }
    step. pose proof (CrawlerFunction_inv b m1 Hinv1) as Hcall.
    destruct (CrawlerFunction b m1) as [chunk m2|code m2]; [|done].
    destruct chunk as [|row rows]; [done|].
    unfold Mach.modify. step. apply IH.
    eapply crawl_inv_frame; [exact Hcall|done|simpl; lia|done].
  - destruct Hadv as (_ & Htrace1 & _ & Hglobal1 & _). rewrite Htrace1, Hglobal1.
    apply Hinv.
Qed.

Lemma started_inv b now sigints : 0 ≤ now → crawl_inv b (started now sigints).
Proof.
  intros Hnow. split; [|split].
  - intros i j e1 e2 _ Hi. done.
  - intros e Hin. by apply elem_of_nil in Hin.
  - intros d. simpl. unfold Glob.domain_state. simpl. by rewrite lookup_empty.
Qed.

(** Once bind has succeeded, the statement is the scan from the
    initialised machine. *)
Lemma crawl_urls_bound input out now sigints :
  CrawlerBind input = inr out →
  crawl_urls between_calls input (boot now sigints) =
    inr (scan between_calls (S (length (urls (bind_data out)))) (bind_data out)
           (started now sigints)).
Proof. intros Hbind. unfold crawl_urls. by rewrite Hbind. Qed.

End Pacing.

(** The wait of line 329 where the conversion is defined. *)
Lemma required_delay_ms_defined `{Platform} d ms :
  delay_in_ms (crawl_delay_seconds d) = Some ms → required_delay_ms d = ms.
Proof. unfold delay_in_ms, required_delay_ms. cbv zeta. by intros ->. Qed.

(** C3, as the code has it. In any run of [crawl_urls], whenever the
    SIGINTs arrive and however long the engine takes between calls, of any
    two requests for input URLs that go to the same host the later one
    starts no earlier than the end of the earlier one plus the host's crawl
    delay in whole milliseconds: the double product [delay * 1000] cut
    toward zero, as line 329 forms it.  This is stated where that product
    lies in the range of [int64_t]; outside it the conversion of line 329
    is undefined and nothing is said.  Calls are serialised by the mutex
    and [MaxThreads] is 1.  Requests for robots.txt, which are exempt from
    pacing, are not counted. *)
Theorem url_requests_are_paced `{HttpClient} `{RobotsParser} `{Platform}
    (between_calls : Z → N) input now sigints r (i j : nat) e1 e2 ms :
  0 ≤ now →
  crawl_urls between_calls input (boot now sigints) = inr r →
  (i < j)%nat →
  trace (machine_of r) !! i = Some e1 → trace (machine_of r) !! j = Some e2 →
  ev_kind e1 = UrlRequest → ev_kind e2 = UrlRequest → host e1 = host e2 →
  delay_in_ms (crawl_delay_seconds
                 (Glob.domain_state (global_state (machine_of r)) (host e1))) = Some ms →
  ev_finish e1 + ms * ns_per_ms ≤ ev_start e2.
Proof.
  intros Hnow Hrun Hij Hi Hj Hkind1 Hkind2 Hhost Hms.
  destruct (CrawlerBind input) as [e|out] eqn:Hbind.
  { unfold crawl_urls in Hrun. by rewrite Hbind in Hrun. }
  rewrite (crawl_urls_bound _ _ _ _ _ Hbind) in Hrun.
  pose proof (scan_inv between_calls (S (length (urls (bind_data out)))) (bind_data out) _
                (started_inv (bind_data out) now sigints Hnow)) as Hscan.
  assert (∀ x y : Res unit, @inr Exception _ x = inr y → y = x) as Hinr by congruence.
  apply Hinr in Hrun. subst r.
  assert (paced is_url_request
            (global_state (machine_of (scan between_calls (S (length (urls (bind_data out))))
                                         (bind_data out) (started now sigints))))
            (trace (machine_of (scan between_calls (S (length (urls (bind_data out))))
                                  (bind_data out) (started now sigints)))))
    as Hpaced by (destruct (scan _ _ _ _); [apply Hscan|exact Hscan]).
  specialize (Hpaced i j e1 e2 Hij Hi Hj).
  unfold is_url_request, delay_ns in Hpaced. rewrite Hkind1, Hkind2 in Hpaced.
  rewrite (required_delay_ms_defined _ _ Hms) in Hpaced. by apply Hpaced.
Qed.

Lemma url_requests_are_paced_witness :
  let e1 := mkEvent UrlRequest "https://example.com/a" url_config "bot"
              (one_hour + World.ms 5) (one_hour + World.ms 25) in
  let e2 := mkEvent UrlRequest "https://example.com/b" url_config "bot"
              (one_hour + World.ms 2025) (one_hour + World.ms 2045) in
  ev_finish e1 + 2000 * ns_per_ms ≤ ev_start e2.
Proof.
  apply (@url_requests_are_paced World.http World.robots World.platform World.no_gap
           (World.query World.three_urls World.bot) one_hour [] World.three_pages
           1%nat 2%nat
           (mkEvent UrlRequest "https://example.com/a" url_config "bot"
              (one_hour + World.ms 5) (one_hour + World.ms 25))
           (mkEvent UrlRequest "https://example.com/b" url_config "bot"
              (one_hour + World.ms 2025) (one_hour + World.ms 2045))
           2000).
  - vm_compute. discriminate.
  - vm_compute. reflexivity.
  - lia.
  - vm_compute. reflexivity.
  - vm_compute. reflexivity.
  - reflexivity.
  - reflexivity.
  - reflexivity.
  - vm_compute. reflexivity.
Defined.

(** Against the claim as it is worded, with the crawl delay itself: a
    host whose robots.txt cannot be fetched is crawled with
    [default_crawl_delay := 0.00146484375] (3/2048 s, a double).  Line 329
    makes one millisecond of it, and the request for the second page
    starts one millisecond after the first one ended, which is earlier
    than the end of the first plus the crawl delay. *)
Lemma crawl_delay_is_cut_to_whole_milliseconds :
  let input := World.query ["https://down.example/a"; "https://down.example/b"]
                 [("user_agent", VVarchar "bot");
                  ("default_crawl_delay", VDouble (3 # 2048))] in
  let e1 := mkEvent UrlRequest "https://down.example/a" url_config "bot"
              (one_hour + World.ms 1) (one_hour + World.ms 2) in
  let e2 := mkEvent UrlRequest "https://down.example/b" url_config "bot"
              (one_hour + World.ms 3) (one_hour + World.ms 4) in
  ∃ m, World.run input (boot one_hour []) = inr (Ret tt m) ∧
       trace m !! 1%nat = Some e1 ∧ trace m !! 2%nat = Some e2 ∧
       host e1 = "down.example" ∧ host e2 = "down.example" ∧
       crawl_delay_seconds (Glob.domain_state (global_state m) "down.example") = 3 # 2048 ∧
       (inject_Z (ev_start e2) <
        inject_Z (ev_finish e1) + (3 # 2048) * inject_Z ns_per_s)%Q.
Proof.
  cbv zeta. eexists. split; [vm_compute; reflexivity|].
  split; [vm_compute; reflexivity|]. split; [vm_compute; reflexivity|].
  split; [reflexivity|]. split; [reflexivity|].
  split; [vm_compute; reflexivity|]. vm_compute. reflexivity.
Qed.

(** ** Retries inside [HttpClient::Fetch]

    [http_client.hpp] declares [Fetch], [IsRetryable] and [ParseRetryAfter];
    their bodies are in a translation unit that is not part of these
    sources.  What follows is the retry policy as the specification words
    it (sections 4.E, 4.G and 7, and the glossary).  The fields
    [initial_backoff_ms] and [backoff_multiplier] of [RetryConfig] do not
    occur in those words and are not used here. *)

Module Backoff.

(** Modelled from the spec: the error taxonomy of section 7, which the
    missing body of [HttpClient::Fetch] assigns to a failed attempt. *)
Inductive ErrorType :=
| network_timeout | network_dns_failure | network_connection_refused | network_ssl_error
| http_client_error | http_server_error | http_rate_limited
| content_too_large | content_type_rejected | robots_disallowed | redirect_loop
| sitemap_parse_error | invalid_url | unknown.

(** Modelled from the spec: one attempt inside the missing body of
    [HttpClient::Fetch]: the response, its classified error ([None] on
    success) and the parsed [Retry-After] header in seconds, if any. *)
Record Attempt := mkAttempt {
  response : HttpResponse;
  error_type : option ErrorType;
  retry_after_seconds : option Z
}.

(** Modelled from the spec: the missing [HttpClient::IsRetryable].
    Network, rate-limit and server errors are retryable; client errors
    are not, except 408 and 425. *)
Definition retryable (a : Attempt) : bool :=
  match error_type a with
  | Some network_timeout | Some network_dns_failure
  | Some network_connection_refused | Some network_ssl_error
  | Some http_rate_limited | Some http_server_error => true
  | Some http_client_error =>
      Z.eqb (status_code (response a)) 408 || Z.eqb (status_code (response a)) 425
  | _ => false
  end.

(** Modelled from the spec: the Fibonacci numbers of the glossary,
    [fib 1, fib 2, ... = 1, 1, 2, 3, 5, 8, ...], used by the missing body
    of [HttpClient::Fetch]. *)
Fixpoint fib (n : nat) : Z :=
  match n with
  | O => 0
  | S n' => match n' with
            | O => 1
            | S n'' => fib n' + fib n''
            end
  end.

(** Modelled from the spec: the sleep before a retry in the missing body
    of [HttpClient::Fetch], [min(retry_after, fib(tier) seconds,
    max_retry_backoff_seconds)]. *)
Definition backoff_seconds (tier : nat) (a : Attempt) (max_retry_backoff_seconds : Z) : Z :=
  let capped := Z.min (fib tier) max_retry_backoff_seconds in
  match retry_after_seconds a with
  | Some r => Z.min r capped
  | None => capped
  end.

(** Modelled from the spec: the retry loop of the missing body of
    [HttpClient::Fetch].  [attempt k] is the outcome of the attempt made
    after [k] failures, [retries_left] counts down from
    [config.max_retries]; the result is the terminal attempt and the
    sleeps, in seconds, in the order they were taken. *)
Fixpoint retry (attempt : nat → Attempt) (max_retry_backoff_seconds : Z)
    (retries_left : nat) (failures : nat) : Attempt * list Z :=
  let a := attempt failures in
  if retryable a then
    match retries_left with
    | O => (a, [])
    | S remaining =>
        let '(final, sleeps) :=
          retry attempt max_retry_backoff_seconds remaining (S failures) in
        (final, backoff_seconds (S failures) a max_retry_backoff_seconds :: sleeps)
    end
  else (a, []).

(** Modelled from the spec: [HttpClient::Fetch] under a [RetryConfig]. *)
Definition fetch (attempt : nat → Attempt) (config : RetryConfig)
    (max_retry_backoff_seconds : Z) : Attempt * list Z :=
  retry attempt max_retry_backoff_seconds (Z.to_nat (max_retries config)) 0.

Example fib_first : map fib (seq 1 8) = [1; 1; 2; 3; 5; 8; 13; 21].
Proof. reflexivity. Qed.


(** A success or a non-retryable error ends the fetch at once. *)
Lemma retry_terminal attempt cap retries failures :
  retryable (attempt failures) = false →
  retry attempt cap retries failures = (attempt failures, []).
Proof. intros Hterminal. destruct retries; cbn [retry]; by rewrite Hterminal. Qed.


End Backoff.




(** * Further properties of the code *)

(** ** URL splitting *)

Module StrFacts.

Lemma append_nil (b : string) : ("" ++ b = b)%string.
Proof. reflexivity. Qed.

Lemma append_cons x (a b : string) : (String x a ++ b = String x (a ++ b))%string.
Proof. reflexivity. Qed.

Lemma append_assoc (a b c : string) : ((a ++ b) ++ c = a ++ (b ++ c))%string.
Proof.
  induction a as [|x a IH]; [done|]. by rewrite !append_cons, IH.
Qed.

Lemma append_empty_r (a : string) : (a ++ "" = a)%string.
Proof. induction a as [|x a IH]; [done|]. by rewrite append_cons, IH. Qed.

Lemma length_append (a b : string) :
  String.length (a ++ b) = (String.length a + String.length b)%nat.
Proof.
  induction a as [|x a IH]; [done|]. rewrite append_cons. simpl. by rewrite IH.
Qed.

(** [find] from a later position, one character further in. *)
Lemma index_S n pat a s :
  String.index (S n) pat (String a s) = option_map S (String.index n pat s).
Proof. simpl. by destruct (String.index n pat s). Qed.

(** [find] of a single character at the head of a string. *)
Lemma index_char_cons c a s :
  String.index 0 (String c "") (String a s) =
    if ascii_dec c a then Some 0%nat
    else option_map S (String.index 0 (String c "") s).
Proof.
  cbn [String.index String.prefix].
  destruct (ascii_dec c a); [by destruct s|].
  by destruct (String.index 0 (String c "") s).
Qed.

(** [find] past a prefix of known length looks at what follows it. *)
Lemma index_skip pat p s k :
  String.index (String.length p + k) pat (p ++ s) =
    option_map (λ i, (String.length p + i)%nat) (String.index k pat s).
Proof.
  induction p as [|x p IH].
  - rewrite append_nil. simpl. by destruct (String.index k pat s).
  - rewrite append_cons. simpl String.length.
    rewrite Nat.add_succ_l, index_S, IH. by destruct (String.index k pat s).
Qed.

Lemma substring_skip p s k :
  String.substring (String.length p) k (p ++ s) = String.substring 0 k s.
Proof.
  induction p as [|x p IH]; [done|]. rewrite append_cons. simpl. exact IH.
Qed.

Lemma substring_prefix a r :
  String.substring 0 (String.length a) (a ++ r) = a.
Proof.
  induction a as [|x a IH]; [by destruct r|].
  rewrite append_cons. simpl. by rewrite IH.
Qed.

Lemma substring_all s : String.substring 0 (String.length s) s = s.
Proof. induction s as [|x s IH]; simpl; [done|by rewrite IH]. Qed.

(** A character that does not occur in [a] is first found in [a ++ r]
    where it is first found in [r]. *)
Lemma index_char_app c a r :
  String.index 0 (String c "") a = None →
  String.index 0 (String c "") (a ++ r) =
    option_map (λ i, (String.length a + i)%nat) (String.index 0 (String c "") r).
Proof.
  induction a as [|x a IH]; intros Hnone.
  - rewrite append_nil. simpl. by destruct (String.index 0 (String c "") r).
  - rewrite index_char_cons in Hnone. rewrite append_cons, index_char_cons.
    destruct (ascii_dec c x); [done|].
    destruct (String.index 0 (String c "") a) eqn:Ha; [done|].
    rewrite IH by done. simpl. by destruct (String.index 0 (String c "") r).
Qed.

Lemma index_char_here c r : String.index 0 (String c "") (String c r) = Some 0%nat.
Proof. rewrite index_char_cons. by destruct (ascii_dec c c). Qed.

(** The text before the first occurrence of a character is free of it. *)
Lemma index_char_before c s : ∀ p,
  String.index 0 (String c "") s = Some p →
  String.index 0 (String c "") (String.substring 0 p s) = None.
Proof.
  induction s as [|x s IH]; intros p Hp; [done|].
  rewrite index_char_cons in Hp. destruct (ascii_dec c x) as [->|Hne].
  - by injection Hp as <-.
  - destruct (String.index 0 (String c "") s) as [q|] eqn:Hs; [|done].
    injection Hp as <-. cbn [String.substring]. rewrite index_char_cons.
    destruct (ascii_dec c x); [done|]. by rewrite (IH q).
Qed.

(** No part of a string brings in a character the string does not have. *)
Lemma index_char_substring c s : ∀ n k,
  String.index 0 (String c "") s = None →
  String.index 0 (String c "") (String.substring n k s) = None.
Proof.
  induction s as [|x s IH]; intros n k Hnone.
  - by destruct n, k.
  - rewrite index_char_cons in Hnone. destruct (ascii_dec c x) as [|Hne]; [done|].
    destruct (String.index 0 (String c "") s) eqn:Hs; [done|].
    destruct n as [|n]; [destruct k as [|k]; [done|]|]; cbn [String.substring].
    + rewrite index_char_cons. destruct (ascii_dec c x); [done|]. by rewrite IH.
    + by apply IH.
Qed.

(** The text between a position and the next occurrence of a character
    (or the end of the string) is free of it. *)
Lemma index_char_between c s : ∀ n,
  String.index 0 (String c "")
    (String.substring n
       (match String.index n (String c "") s with
        | Some e => e
        | None => String.length s
        end - n) s) = None.
Proof.
  induction s as [|x s IH]; intros n.
  - by destruct n.
  - destruct n as [|n].
    + rewrite Nat.sub_0_r.
      destruct (String.index 0 (String c "") (String x s)) as [e|] eqn:He.
      * by apply index_char_before.
      * by apply index_char_substring.
    + rewrite index_S. specialize (IH n).
      destruct (String.index n (String c "") s) as [e|]; simpl; exact IH.
Qed.

(** From an occurrence of a character on, the string starts with it. *)
Lemma substring_from_index c s : ∀ n m,
  String.index n (String c "") s = Some m →
  ∃ rest, String.substring m (String.length s - m) s = String c rest.
Proof.
  induction s as [|x s IH]; intros n m Hm.
  - by destruct n.
  - destruct n as [|n].
    + rewrite index_char_cons in Hm. destruct (ascii_dec c x) as [->|Hne].
      * injection Hm as <-. simpl. eauto.
      * destruct (String.index 0 (String c "") s) as [q|] eqn:Hs; [|done].
        injection Hm as <-. simpl. by apply (IH 0%nat).
    + rewrite index_S in Hm.
      destruct (String.index n (String c "") s) as [q|] eqn:Hs; [|done].
      injection Hm as <-. simpl. by apply (IH n).
Qed.

(** The scheme separator is found right after a scheme without a colon. *)
Lemma index_scheme scheme r :
  String.index 0 ":" scheme = None →
  String.index 0 "://" (scheme ++ "://" ++ r) = Some (String.length scheme).
Proof.
  induction scheme as [|x scheme IH]; intros Hnone.
  - rewrite append_nil, !append_cons, append_nil. cbn [String.index String.prefix].
    repeat match goal with |- context [ascii_dec ?a ?b] =>
      destruct (ascii_dec a b); [|done] end.
    by destruct r.
  - rewrite index_char_cons in Hnone.
    destruct (ascii_dec ":" x) as [|Hne]; [done|].
    destruct (String.index 0 ":" scheme) eqn:Hs; [done|].
    rewrite append_cons. cbn [String.index String.prefix].
    destruct (ascii_dec ":" x); [done|].
    by rewrite IH.
Qed.

End StrFacts.

Section UrlSplitting.

Import StrFacts.

(** What the two extractors make of [scheme://authority path], for an
    authority without a slash and a path that is empty or starts with one. *)
Lemma Extract_authority scheme authority path :
  Str.find ":" 0 scheme = None →
  Str.find "/" 0 authority = None →
  (path = "" ∨ ∃ rest, path = String "/" rest) →
  let url := (scheme ++ "://" ++ authority ++ path)%string in
  ExtractDomain url =
    match Str.find ":" 0 authority with
    | Some port_pos => Str.substr 0 port_pos authority
    | None => authority
    end ∧
  ExtractPath url = (if String.eqb path "" then "/" else path).
Proof.
  intros Hscheme Hauthority Hpath url. unfold Str.find in *.
  set (p := (scheme ++ "://")%string).
  assert (String.length p = (String.length scheme + 3)%nat) as Hp
    by (unfold p; by rewrite length_append).
  assert (url = (p ++ authority ++ path)%string) as Hurl
    by (unfold url, p; by rewrite append_assoc).
  assert (String.index 0 "://" url = Some (String.length scheme)) as Hsep
    by (by apply index_scheme).
  assert (String.index (String.length scheme + 3) "/" url =
          option_map (λ i, (String.length p + (String.length authority + i))%nat)
            (String.index 0 "/" path)) as Hslash.
  { rewrite Hurl, <- Hp, <- (Nat.add_0_r (String.length p)) at 1.
    rewrite index_skip, index_char_app by done.
    by destruct (String.index 0 "/" path). }
  assert (∀ k, String.substring (String.length scheme + 3) k url =
               String.substring 0 k (authority ++ path)) as Hsub.
  { intros k. by rewrite Hurl, <- Hp, substring_skip. }
  unfold ExtractDomain, ExtractPath, Str.find, Str.substr, Str.substr_from.
  rewrite Hsep, Hslash, Hsub.
  destruct Hpath as [->|[rest ->]].
  - cbn [String.index option_map String.eqb].
    rewrite Hurl, !length_append, append_empty_r. simpl String.length.
    replace (String.length p + (String.length authority + 0) - (String.length scheme + 3))%nat
      with (String.length authority) by lia.
    by rewrite substring_all.
  - rewrite index_char_here. cbn [option_map String.eqb].
    replace (String.length p + (String.length authority + 0) - (String.length scheme + 3))%nat
      with (String.length authority) by lia.
    rewrite substring_prefix. split; [done|].
    rewrite Hurl, <- append_assoc.
    replace (String.length p + (String.length authority + 0))%nat
      with (String.length (p ++ authority)) by (rewrite length_append; lia).
    rewrite substring_skip, (length_append (p ++ authority)).
    replace (String.length (p ++ authority) + String.length (String "/" rest)
             - String.length (p ++ authority))%nat
      with (String.length (String "/" rest)) by lia.
    apply substring_all.
Qed.

(** X1. A URL put together from a scheme without a colon, a host without
    colon or slash, an optional port and a path that is empty or starts
    with a slash is taken apart again: [ExtractDomain] gives the host
    (without the port), [ExtractPath] the path, with ["/"] standing in for
    an empty one. *)
Theorem url_parts_round_trip scheme host port path :
  Str.find ":" 0 scheme = None →
  Str.find ":" 0 host = None → Str.find "/" 0 host = None →
  Str.find "/" 0 port = None →
  (path = "" ∨ ∃ rest, path = String "/" rest) →
  let plain := (scheme ++ "://" ++ host ++ path)%string in
  let with_port := (scheme ++ "://" ++ (host ++ ":" ++ port) ++ path)%string in
  ExtractDomain plain = host ∧ ExtractDomain with_port = host ∧
  ExtractPath plain = (if String.eqb path "" then "/" else path) ∧
  ExtractPath with_port = (if String.eqb path "" then "/" else path).
Proof.
  intros Hscheme Hcolon Hslash Hport Hpath plain with_port.
  destruct (Extract_authority scheme host path Hscheme Hslash Hpath) as [Hd1 Hp1].
  assert (Str.find "/" 0 (host ++ ":" ++ port) = None) as Hslash2.
  { unfold Str.find in *. rewrite index_char_app by done.
    rewrite append_cons, append_nil, index_char_cons.
    destruct (ascii_dec "/" ":"); [done|]. by rewrite Hport. }
  destruct (Extract_authority scheme (host ++ ":" ++ port) path Hscheme Hslash2 Hpath)
    as [Hd2 Hp2].
  split; [|split; [|split]]; [| |exact Hp1|exact Hp2].
  - fold plain in Hd1. by rewrite Hd1, Hcolon.
  - fold with_port in Hd2. rewrite Hd2. unfold Str.find, Str.substr in *.
    rewrite index_char_app by done.
    rewrite append_cons, append_nil, index_char_here. cbn [option_map].
    by rewrite Nat.add_0_r, substring_prefix.
Qed.

Lemma url_parts_round_trip_witness :
  ExtractDomain "https://example.com/a/b?x=1" = "example.com" ∧
  ExtractDomain "https://example.com:8443/a/b?x=1" = "example.com" ∧
  ExtractPath "https://example.com/a/b?x=1" = "/a/b?x=1" ∧
  ExtractPath "https://example.com:8443/a/b?x=1" = "/a/b?x=1".
Proof.
  apply (url_parts_round_trip "https" "example.com" "8443" "/a/b?x=1");
    try reflexivity. right. by eexists.
Defined.

(** The domain is cut at the first slash after the scheme and then at the
    first colon, so neither is left in it. *)
Lemma ExtractDomain_clean url :
  Str.find ":" 0 (ExtractDomain url) = None ∧ Str.find "/" 0 (ExtractDomain url) = None.
Proof.
  unfold ExtractDomain, Str.find, Str.substr.
  destruct (String.index 0 "://" url) as [proto_end|]; [|done].
  pose proof (index_char_between "/" url (proto_end + 3)) as Hraw.
  set (raw := String.substring (proto_end + 3) _ url) in *.
  destruct (String.index 0 ":" raw) as [port_pos|] eqn:Hport.
  - split; [by apply index_char_before|by apply index_char_substring].
  - done.
Qed.

(** X2. Whatever the input, the domain [ExtractDomain] returns contains
    neither a colon nor a slash: a port (or anything else after a colon)
    is always cut off. *)
Theorem ExtractDomain_has_no_colon_or_slash url :
  Str.find ":" 0 (ExtractDomain url) = None ∧ Str.find "/" 0 (ExtractDomain url) = None.
Proof. apply ExtractDomain_clean. Qed.

(** X3. [ExtractPath] always returns a path that starts with a slash, so
    the robots check is never handed an empty or relative path. *)
Theorem ExtractPath_starts_with_slash url :
  ∃ rest, ExtractPath url = String "/" rest.
Proof.
  unfold ExtractPath, Str.find, Str.substr_from.
  destruct (String.index 0 "://" url) as [proto_end|]; [|by eexists].
  destruct (String.index (proto_end + 3) "/" url) as [path_start|] eqn:Hpath; [|by eexists].
  by eapply substring_from_index.
Qed.

(** X4. The robots.txt URL built for the domain of any input is itself
    split back into that domain and the path [/robots.txt]: the robots.txt
    request goes to the host the crawler files the URL under. *)
Theorem robots_url_splits url :
  ExtractDomain (robots_url (ExtractDomain url)) = ExtractDomain url ∧
  ExtractPath (robots_url (ExtractDomain url)) = "/robots.txt".
Proof.
  destruct (ExtractDomain_clean url) as [Hcolon Hslash].
  destruct (Extract_authority "https" (ExtractDomain url) "/robots.txt")
    as [Hdomain Hpath]; [done|done|right; by eexists|].
  split; [|exact Hpath].
  etransitivity; [exact Hdomain|]. by rewrite Hcolon.
Qed.

End UrlSplitting.

(** ** Bind: what the statement's arguments become *)

Section BindMore.

(** One iteration of the parameter loop leaves the URL list alone and
    raises [has_user_agent] exactly on the key [user_agent]. *)
Lemma named_parameter_effect b h kv b' h' :
  Bind.named_parameter (b, h) kv = inr (b', h') →
  urls b' = urls b ∧ h' = h || String.eqb (fst kv) "user_agent".
Proof.
  destruct kv as [k v]; cbn [Bind.named_parameter fst].
  destruct (String.eqb k "user_agent").
  { destruct (StringValue_Get v); simpl; [|done].
    intros [= <- <-]. by rewrite orb_true_r. }
  rewrite orb_false_r.
  repeat match goal with
         | |- context [String.eqb k ?s] => destruct (String.eqb k s)
         | |- context [Bind.get ?o] => destruct o; simpl
         end; try done; by intros [= <- <-].
Qed.

Lemma loop_effect kvs : ∀ b h b' h',
  Bind.named_parameters_loop kvs (b, h) = inr (b', h') →
  urls b' = urls b ∧
  h' = h || existsb (λ kv, String.eqb (fst kv) "user_agent") kvs.
Proof.
  induction kvs as [|kv rest IH]; intros b h b' h' Hrun;
    cbn [Bind.named_parameters_loop existsb] in *.
  - injection Hrun as <- <-. by rewrite orb_false_r.
  - destruct (Bind.named_parameter (b, h) kv) as [e|[b1 h1]] eqn:Hstep; [done|].
    destruct (named_parameter_effect _ _ _ _ _ Hstep) as [Hurls ->].
    destruct (IH _ _ _ _ Hrun) as [-> ->]. by rewrite Hurls, orb_assoc.
Qed.

Lemma user_agent_present (kvs : list (string * Value)) v :
  (("user_agent" : string), v) ∈ kvs →
  existsb (λ kv, String.eqb (fst kv) "user_agent") kvs = true.
Proof.
  intros Hin. apply existsb_exists. exists ("user_agent", v).
  split; [by apply list_elem_of_In|done].
Qed.

Lemma set_defaults_urls b : urls (Bind.set_defaults b) = urls b.
Proof.
  unfold Bind.set_defaults.
  destruct (Qeq_bool (default_crawl_delay b) 0); simpl;
    destruct (Qeq_bool (max_crawl_delay b) 0); simpl;
    destruct (Z.eqb (timeout_seconds b) 0); done.
Qed.

Lemma push_urls_strings us : ∀ acc,
  Bind.push_urls (map VVarchar us) acc = inr (acc ++ us).
Proof.
  induction us as [|u us IH]; intros acc; cbn [map Bind.push_urls].
  - by rewrite app_nil_r.
  - simpl. rewrite IH. by rewrite <- app_assoc.
Qed.

Lemma push_urls_inv children : ∀ acc us,
  Bind.push_urls children acc = inr us →
  ∃ new, children = map VVarchar new ∧ us = acc ++ new.
Proof.
  induction children as [|child rest IH]; intros acc us Hpush;
    cbn [Bind.push_urls] in Hpush.
  - injection Hpush as <-. exists []. by rewrite app_nil_r.
  - destruct child; try done. simpl in Hpush.
    destruct (IH _ _ Hpush) as (new & -> & ->).
    exists (s :: new). by rewrite <- app_assoc.
Qed.

(** X5. Bind succeeds only when the first positional argument is a list
    whose elements are all strings (no NULL among them), and then the URL
    list of the bind data is exactly that list: same strings, same order,
    duplicates kept, nothing normalised. *)
Theorem CrawlerBind_keeps_url_list input out :
  CrawlerBind input = inr out →
  ∃ rest, inputs input = VList (map VVarchar (urls (bind_data out))) :: rest.
Proof.
  unfold CrawlerBind.
  destruct (Bind.named_parameters_loop _ _) as [e|[b h]] eqn:Hloop; [done|].
  destruct (negb h); [done|].
  destruct (loop_effect _ _ _ _ _ Hloop) as [Hurls _].
  destruct (inputs input) as [|[] rest]; try done.
  destruct (Bind.push_urls _ _) as [e|us] eqn:Hpush; [done|].
  intros [= <-]. apply push_urls_inv in Hpush as (new & -> & ->).
  rewrite set_defaults_urls, Hurls. simpl. by exists rest.
Qed.

Lemma CrawlerBind_keeps_url_list_witness :
  ∃ rest,
    inputs (World.query ["https://b.example/2"; "https://a.example/1"; "https://b.example/2"]
              World.bot) =
    VList (map VVarchar
             (urls (bind_data
                (mkBindOutput
                   (mkCrawlerBindData
                      ["https://b.example/2"; "https://a.example/1"; "https://b.example/2"]
                      "bot" 1 0 60 30 true true)
                   Bind.return_types Bind.names)))) :: rest.
Proof.
  apply (CrawlerBind_keeps_url_list
           (World.query ["https://b.example/2"; "https://a.example/1"; "https://b.example/2"]
              World.bot)).
  reflexivity.
Defined.

(** X6. With [user_agent] as the only named parameter, bind fills in the
    defaults: a default crawl delay of 1 s, no minimum, a maximum of 60 s,
    a timeout of 30 s, robots.txt respected and skipped URLs logged; the
    schema is the eight declared columns. *)
Theorem CrawlerBind_defaults us ua rest :
  CrawlerBind (mkBindInput (VList (map VVarchar us) :: rest) [("user_agent", VVarchar ua)]) =
  inr (mkBindOutput (mkCrawlerBindData us ua 1 0 60 30 true true)
         [VARCHAR; VARCHAR; INTEGER; VARCHAR; VARCHAR; BIGINT; TIMESTAMP; VARCHAR]
         ["url"; "domain"; "http_status"; "body"; "content_type"; "elapsed_ms";
          "crawled_at"; "error"]).
Proof.
  unfold CrawlerBind. simpl. by rewrite push_urls_strings.
Qed.

(** X7. Whatever named parameters are given, bind data never carries a
    zero default delay, a zero maximum delay or a zero timeout: an explicit
    zero is replaced by the default (1 s, 60 s, 30 s) like a parameter left
    out.  A zero minimum delay is kept. *)
Theorem CrawlerBind_replaces_zero input out :
  CrawlerBind input = inr out →
  ¬ (default_crawl_delay (bind_data out) == 0)%Q ∧
  ¬ (max_crawl_delay (bind_data out) == 0)%Q ∧
  timeout_seconds (bind_data out) ≠ 0.
Proof.
  unfold CrawlerBind.
  destruct (Bind.named_parameters_loop _ _) as [e|[b h]]; [done|].
  destruct (negb h); [done|].
  destruct (inputs input) as [|[] rest]; try done.
  destruct (Bind.push_urls _ _); [done|].
  intros [= <-]. unfold Bind.set_defaults. simpl.
  destruct (Qeq_bool (default_crawl_delay b) 0) eqn:Hd; simpl;
    destruct (Qeq_bool (max_crawl_delay b) 0) eqn:Hm; simpl;
    destruct (Z.eqb_spec (timeout_seconds b) 0); simpl;
    repeat match goal with
           | H : Qeq_bool _ _ = false |- _ => apply Qeq_bool_neq in H
           end;
    (split; [|split]); try done; intros Hq; unfold Qeq in Hq; simpl in Hq; lia.
Qed.

Lemma CrawlerBind_replaces_zero_witness :
  let out := mkBindOutput (mkCrawlerBindData ["https://a.example/1"] "bot" 1 0 60 30 true true)
               Bind.return_types Bind.names in
  ¬ (default_crawl_delay (bind_data out) == 0)%Q ∧
  ¬ (max_crawl_delay (bind_data out) == 0)%Q ∧
  timeout_seconds (bind_data out) ≠ 0.
Proof.
  apply (CrawlerBind_replaces_zero
           (World.query ["https://a.example/1"]
              [("user_agent", VVarchar "bot"); ("default_crawl_delay", VDouble 0);
               ("max_crawl_delay", VDouble 0); ("timeout_seconds", VInteger 0)])).
  reflexivity.
Defined.

(** X8. Bind succeeds whenever the named parameters have their registered
    types, [user_agent] is among them and the first argument is a list of
    strings; the URL list is then that list. *)
Theorem CrawlerBind_succeeds kvs us rest v :
  well_typed kvs = true →
  (("user_agent" : string), v) ∈ kvs →
  ∃ out, CrawlerBind (mkBindInput (VList (map VVarchar us) :: rest) kvs) = inr out ∧
         urls (bind_data out) = us.
Proof.
  intros Hty Hua. unfold CrawlerBind. cbn [named_parameters inputs].
  destruct (loop_typed kvs (CrawlerBindData_zero, false) Hty) as [[b h] Hloop].
  rewrite Hloop.
  destruct (loop_effect _ _ _ _ _ Hloop) as [Hurls ->].
  rewrite (user_agent_present _ _ Hua). cbn [orb negb].
  rewrite push_urls_strings, set_defaults_urls, Hurls.
  eexists. split; [reflexivity|]. done.
Qed.

Lemma CrawlerBind_succeeds_witness :
  ∃ out,
    CrawlerBind (mkBindInput
                   (VList (map VVarchar ["https://a.example/1"; "https://a.example/2"]) :: [])
                   [("min_crawl_delay", VDouble 2); ("user_agent", VVarchar "bot")]) = inr out ∧
    urls (bind_data out) = ["https://a.example/1"; "https://a.example/2"].
Proof.
  apply (CrawlerBind_succeeds
           [("min_crawl_delay", VDouble 2); ("user_agent", VVarchar "bot")]
           ["https://a.example/1"; "https://a.example/2"] [] (VVarchar "bot")).
  - reflexivity.
  - apply list_elem_of_further, list_elem_of_here.
Defined.

(** X9. With well-typed named parameters that include [user_agent], a
    statement without a positional argument, or with a first argument that
    is not a list, fails at bind with the matching BinderException. *)
Theorem CrawlerBind_rejects_missing_url_list kvs args v :
  well_typed kvs = true →
  (("user_agent" : string), v) ∈ kvs →
  (∀ children rest, args ≠ VList children :: rest) →
  CrawlerBind (mkBindInput args kvs) =
  inl (BinderException
         match args with
         | [] => "crawl_urls requires a list of URLs as first argument"
         | _ :: _ => "crawl_urls first argument must be a list of URLs"
         end).
Proof.
  intros Hty Hua Hargs. unfold CrawlerBind. cbn [named_parameters inputs].
  destruct (loop_typed kvs (CrawlerBindData_zero, false) Hty) as [[b h] Hloop].
  rewrite Hloop.
  destruct (loop_effect _ _ _ _ _ Hloop) as [_ ->].
  rewrite (user_agent_present _ _ Hua). cbn [orb negb].
  destruct args as [|[] rest]; try done.
  by destruct (Hargs children rest).
Qed.

Lemma CrawlerBind_rejects_missing_url_list_witness :
  CrawlerBind (mkBindInput [VVarchar "https://a.example/1"] World.bot) =
  inl (BinderException "crawl_urls first argument must be a list of URLs").
Proof.
  apply (CrawlerBind_rejects_missing_url_list World.bot [VVarchar "https://a.example/1"]
           (VVarchar "bot")).
  - reflexivity.
  - apply list_elem_of_here.
  - intros children rest. discriminate.
Defined.

End BindMore.

(** ** Whole runs *)

(** What the engine does with the chunk a call returned. *)
Definition collect (chunk : DataChunk) (m : Machine) : Machine :=
  match chunk with
  | [] => m
  | _ :: _ => Mach.with_emitted (emitted m ++ chunk) m
  end.

Section ScanInduction.

Context `{HttpClient} `{RobotsParser} `{Platform}.
Variable between_calls : Z → N.

(** A property that the passing of time and every call keep holds after
    the scan; [E] is what is known when the process exits on the way. *)
Lemma scan_invariant (I E : Machine → Prop) b :
  (∀ d m, I m → match Mach.advance d m with
                | Ret _ m' => I m'
                | Exit _ m' => E m'
                end) →
  (∀ m, I m → match CrawlerFunction b m with
              | Ret chunk m' => I (collect chunk m')
              | Exit _ m' => E m'
              end) →
  ∀ fuel m, I m → match scan between_calls fuel b m with
                  | Ret _ m' => I m'
                  | Exit _ m' => E m'
                  end.
Proof.
  intros Hadvance Hcall.
  induction fuel as [|fuel IH]; intros m Hinv; [done|].
  cbn [scan]. unfold Mach.steady_now, Mach.get. step. step.
  specialize (Hadvance (Z.of_N (between_calls (clock m))) m Hinv).
  destruct (Mach.advance _ m) as [[] m1|code m1]; [|done].
  step. specialize (Hcall m1 Hadvance).
  destruct (CrawlerFunction b m1) as [chunk m2|code m2]; [|done].
  destruct chunk as [|row rows]; [done|].
  unfold Mach.modify. step. by apply IH.
Qed.

End ScanInduction.

(** *** Runs in which the signal handler never exits *)

Section Undisturbed.

Context `{HttpClient} `{RobotsParser} `{Platform}.

(** A condition on the signal flags and the SIGINTs still to come that
    rules out an exit of the handler and that delivery keeps. *)
Variable P : SignalState → list Z → Prop.
Hypothesis P_deliver : ∀ upto s ps,
  P s ps → ∃ s' ps', Mach.deliver_sigints upto ps s = (s', ps', None) ∧ P s' ps'.

Definition holds (m : Machine) : Prop := P (signals m) (pending_sigints m).

Lemma advance_undisturbed d m :
  holds m → ∃ m', Mach.advance d m = Ret tt m' ∧ holds m'.
Proof.
  intros Hm. unfold Mach.advance.
  destruct (P_deliver (clock m + d) _ _ Hm) as (s' & ps' & -> & HP).
  eexists. split; [reflexivity|exact HP].
Qed.

Lemma http_fetch_undisturbed kind url config ua m :
  holds m → ∃ r m', http_fetch kind url config ua m = Ret r m' ∧ holds m'.
Proof.
  intros Hm. unfold http_fetch.
  destruct (Fetch url config ua (clock m)) as [response took].
  match goal with |- context [Mach.advance ?d ?m0] =>
    destruct (advance_undisturbed d m0) as (m' & -> & Hm') end; [exact Hm|eauto].
Qed.

Lemma fetch_robots_txt_undisturbed b domain m :
  holds m → ∃ m', fetch_robots_txt b domain m = Ret tt m' ∧ holds m'.
Proof.
  intros Hm. unfold fetch_robots_txt, Mach.get. step.
  destruct (_ && _); [|unfold retM; eauto].
  step.
  destruct (http_fetch_undisturbed RobotsRequest (robots_url domain) robots_config
              (user_agent b) m Hm) as (r & m1 & -> & Hm1).
  unfold bindM, Mach.modify_global, Mach.modify. eexists; split; [reflexivity|exact Hm1].
Qed.

Lemma wait_for_crawl_delay_undisturbed domain m :
  holds m → ∃ m', wait_for_crawl_delay domain m = Ret tt m' ∧ holds m'.
Proof.
  intros Hm. unfold wait_for_crawl_delay, bindM, Mach.steady_now, Mach.get.
  destruct (Z.ltb _ _); [|unfold retM; eauto].
  unfold sleep_for_ms. by apply advance_undisturbed.
Qed.

Lemma fetch_url_undisturbed b url domain m :
  holds m → ∃ chunk m', fetch_url b url domain m = Ret chunk m' ∧ holds m'.
Proof.
  intros Hm. unfold fetch_url, Mach.steady_now, Mach.get. step. step.
  destruct (http_fetch_undisturbed UrlRequest url url_config (user_agent b) m Hm)
    as (r & m1 & -> & Hm1).
  unfold bindM, Mach.modify_global, Mach.modify, retM.
  destruct (success r); (do 2 eexists; split; [reflexivity|exact Hm1]).
Qed.

Lemma skip_disallowed_undisturbed b url domain m :
  holds m → ∃ chunk m', skip_disallowed b url domain m = Ret chunk m' ∧ holds m'.
Proof.
  intros Hm. unfold skip_disallowed, bindM, Mach.modify_global, Mach.modify, Mach.get, retM.
  destruct (log_skipped b); (do 2 eexists; split; [reflexivity|exact Hm]).
Qed.

Lemma CrawlerFunction_undisturbed b m :
  holds m → ∃ chunk m', CrawlerFunction b m = Ret chunk m' ∧ holds m'.
Proof.
  intros Hm.
  destruct (finished (local_state m)) eqn:Hfin;
    [rewrite CrawlerFunction_idle by auto; eauto|].
  destruct (g_shutdown_requested (signals m)) eqn:Hflag;
    [rewrite CrawlerFunction_idle by auto; eauto|].
  destruct (urls b !! current_url_index (global_state m)) as [url|] eqn:Hurl;
    [|rewrite CrawlerFunction_done by done; eauto].
  rewrite (CrawlerFunction_takes b m url) by done. cbv zeta.
  destruct (fetch_robots_txt_undisturbed b (ExtractDomain url) (take_url url m) Hm)
    as (m1 & -> & Hm1).
  destruct (robots_allow _ _ _); [|by apply skip_disallowed_undisturbed].
  destruct (wait_for_crawl_delay_undisturbed (ExtractDomain url) m1 Hm1) as (m2 & -> & Hm2).
  destruct (g_shutdown_requested (signals m2)); [eauto|].
  by apply fetch_url_undisturbed.
Qed.

Variable between_calls : Z → N.

Lemma scan_undisturbed b fuel m :
  holds m → ∃ m', scan between_calls fuel b m = Ret tt m' ∧ holds m'.
Proof.
  intros Hm.
  pose proof (scan_invariant between_calls holds (λ _, False) b) as Hscan.
  specialize (Hscan
    ltac:(intros d m0 Hm0; by destruct (advance_undisturbed d m0 Hm0) as (m' & -> & Hm'))
    ltac:(intros m0 Hm0;
          destruct (CrawlerFunction_undisturbed b m0 Hm0) as (chunk & m' & -> & Hm');
          by destruct chunk)
    fuel m Hm).
  destruct (scan between_calls fuel b m) as [[] m'|code m']; [eauto|done].
Qed.

End Undisturbed.

(** SIGINTs that arrive at least three seconds after the one before. *)
Fixpoint spaced (ps : list Z) : bool :=
  match ps with
  | [] => true
  | t1 :: rest =>
      match rest with
      | [] => true
      | t2 :: _ => Z.leb (t1 + 3 * ns_per_s) t2
      end && spaced rest
  end.

(** The handler cannot exit: the SIGINTs to come are spaced, and either
    none has been counted yet or the next one is due three seconds or more
    after the last. *)
Definition calm (s : SignalState) (ps : list Z) : Prop :=
  spaced ps = true ∧
  (g_sigint_count s = 0 ∨
   1 ≤ g_sigint_count s ∧ ∀ t, head ps = Some t → g_last_sigint_time s + 3 * ns_per_s ≤ t).

Section Signals.

Context `{HttpClient} `{RobotsParser} `{Platform}.

Lemma to_seconds_ge_3 x : 3 * ns_per_s ≤ x → Z.ltb (to_seconds x) 3 = false.
Proof.
  intros Hx. apply Z.ltb_ge. unfold to_seconds, ns_per_s in *.
  rewrite Z.quot_div_nonneg by lia. apply Z.div_le_lower_bound; lia.
Qed.

(** A SIGINT that is the first one counted, or comes three seconds or
    more after the last, raises the flag and returns. *)
Lemma SignalHandler_returns s t :
  g_sigint_count s = 0 ∨ g_last_sigint_time s + 3 * ns_per_s ≤ t →
  SignalHandler SIGINT t s = (mkSignalState true (g_sigint_count s + 1) t, false).
Proof.
  intros Hcalm. unfold SignalHandler. cbn [Z.eqb SIGINT Pos.eqb].
  destruct Hcalm as [Hcount|Hlate].
  - by rewrite Hcount.
  - rewrite to_seconds_ge_3 by lia. by rewrite andb_false_r.
Qed.

Lemma calm_deliver upto ps : ∀ s,
  calm s ps →
  ∃ s' ps', Mach.deliver_sigints upto ps s = (s', ps', None) ∧ calm s' ps'.
Proof.
  induction ps as [|t rest IH]; intros s Hcalm; cbn [Mach.deliver_sigints]; [eauto|].
  destruct (Z.leb t upto); [|eauto].
  destruct Hcalm as [Hspaced Hnext]. cbn [spaced] in Hspaced.
  apply andb_prop in Hspaced as [Hgap Hrest].
  rewrite SignalHandler_returns.
  2: { destruct Hnext as [Hzero|[_ Hlate]]; [by left|right]. by apply Hlate. }
  apply IH. split; [done|]. right. cbn [g_sigint_count g_last_sigint_time].
  split; [destruct Hnext as [->|[Hone _]]; lia|].
  intros t2 Hhead. destruct rest as [|t2' rest']; [done|].
  injection Hhead as ->. by apply Z.leb_le.
Qed.

Variable between_calls : Z → N.

(** The statement from any machine: bind, the two initialisers, the scan. *)
Lemma crawl_urls_scan input out m :
  CrawlerBind input = inr out →
  crawl_urls between_calls input m =
    inr (scan between_calls (S (length (urls (bind_data out)))) (bind_data out)
           (machine_of ((CrawlerInitGlobal >> CrawlerInitLocal) m))).
Proof. intros Hbind. unfold crawl_urls. by rewrite Hbind. Qed.

Lemma SignalHandler_keeps_flag signum t s :
  g_shutdown_requested s = true →
  g_shutdown_requested (fst (SignalHandler signum t s)) = true.
Proof.
  intros Hflag. unfold SignalHandler.
  destruct (Z.eqb signum SIGINT); [|done].
  by destruct (_ && _).
Qed.

Lemma deliver_keeps_flag upto ps : ∀ s,
  g_shutdown_requested s = true →
  g_shutdown_requested (fst (fst (Mach.deliver_sigints upto ps s))) = true.
Proof.
  induction ps as [|t rest IH]; intros s Hflag; cbn [Mach.deliver_sigints]; [done|].
  destruct (Z.leb t upto); [|done].
  pose proof (SignalHandler_keeps_flag SIGINT t s Hflag) as Hkept.
  destruct (SignalHandler SIGINT t s) as [s' exited]. simpl in Hkept.
  destruct exited; [done|]. by apply IH.
Qed.

Lemma advance_keeps_flag d m :
  g_shutdown_requested (signals m) = true →
  g_shutdown_requested (signals (machine_of (Mach.advance d m))) = true.
Proof.
  intros Hflag. unfold Mach.advance.
  pose proof (deliver_keeps_flag (clock m + d) (pending_sigints m) _ Hflag) as Hkept.
  destruct (Mach.deliver_sigints _ _ _) as [[s ps] [t|]]; exact Hkept.
Qed.

End Signals.

(** X10. A statement that binds is never killed by SIGINTs that come
    three seconds or more apart, however many there are and whenever they
    arrive: [CrawlerInitGlobal] resets the count, so the first one only
    asks for a graceful shutdown, and every later one finds the previous
    one at least three seconds back.  The statement returns normally. *)
Theorem spaced_sigints_never_exit `{HttpClient} `{RobotsParser} `{Platform}
    (between_calls : Z → N) input out m :
  CrawlerBind input = inr out →
  spaced (pending_sigints m) = true →
  ∃ m', crawl_urls between_calls input m = inr (Ret tt m').
Proof.
  intros Hbind Hspaced. rewrite (crawl_urls_scan _ _ _ _ Hbind).
  destruct (scan_undisturbed calm (λ upto s ps, calm_deliver upto ps s) between_calls (bind_data out)
              (S (length (urls (bind_data out))))
              (machine_of ((CrawlerInitGlobal >> CrawlerInitLocal) m)))
    as (m' & -> & _); [|eauto].
  split; [exact Hspaced|by left].
Qed.

Lemma spaced_sigints_never_exit_witness :
  ∃ m', World.run (World.query World.three_urls World.bot)
          (boot one_hour [one_hour + World.ms 10; one_hour + World.ms 3010;
                          one_hour + World.ms 6010]) = inr (Ret tt m').
Proof.
  apply (@spaced_sigints_never_exit World.http World.robots World.platform World.no_gap
           (World.query World.three_urls World.bot)
           (mkBindOutput World.three Bind.return_types Bind.names)
           (boot one_hour [one_hour + World.ms 10; one_hour + World.ms 3010;
                           one_hour + World.ms 6010])).
  - reflexivity.
  - reflexivity.
Defined.

(** X11. Once the shutdown flag is up it stays up, and the scan does
    nothing more: no request is issued, no row is handed over and the
    crawler's counters and domain states are left as they are, whether the
    scan then returns or a further SIGINT ends the process. *)
Theorem shutdown_is_final `{HttpClient} `{RobotsParser} `{Platform}
    (between_calls : Z → N) fuel b m :
  g_shutdown_requested (signals m) = true →
  let m' := machine_of (scan between_calls fuel b m) in
  g_shutdown_requested (signals m') = true ∧
  trace m' = trace m ∧ emitted m' = emitted m ∧ global_state m' = global_state m.
Proof.
  intros Hflag. cbv zeta.
  assert (match scan between_calls fuel b m with
          | Ret _ m' | Exit _ m' =>
              g_shutdown_requested (signals m') = true ∧
              trace m' = trace m ∧ emitted m' = emitted m ∧ global_state m' = global_state m
          end) as Hscan.
  { destruct fuel as [|fuel]; [done|].
    cbn [scan]. unfold Mach.steady_now, Mach.get. step. step.
    pose proof (advance_cases (Z.of_N (between_calls (clock m))) m) as Hadv.
    pose proof (advance_keeps_flag (Z.of_N (between_calls (clock m))) m Hflag) as Hkept.
    destruct (Mach.advance _ m) as [[] m1|code m1]; simpl in Hkept.
    - destruct Hadv as (_ & Htrace & Hemitted & Hglobal & _).
      step. rewrite CrawlerFunction_idle by auto. done.
    - destruct Hadv as (_ & Htrace & Hemitted & Hglobal & _). done. }
  by destruct (scan between_calls fuel b m).
Qed.

Lemma shutdown_is_final_witness :
  let m := Mach.with_signals (mkSignalState true 1 one_hour) [] (started one_hour []) in
  let m' := machine_of (@scan World.http World.robots World.platform World.no_gap 4
                          World.three m) in
  g_shutdown_requested (signals m') = true ∧
  trace m' = trace m ∧ emitted m' = emitted m ∧ global_state m' = global_state m.
Proof.
  apply (@shutdown_is_final World.http World.robots World.platform World.no_gap 4 World.three
           (Mach.with_signals (mkSignalState true 1 one_hour) [] (started one_hour []))).
  reflexivity.
Defined.

(** *** The statistics *)

Section Statistics.

Context `{HttpClient} `{RobotsParser} `{Platform}.

Lemma fetch_url_counters b url domain m :
  match fetch_url b url domain m with
  | Ret chunk m' =>
      length chunk = 1%nat ∧ emitted m' = emitted m ∧
      current_url_index (global_state m') = current_url_index (global_state m) ∧
      total_skipped (global_state m') = total_skipped (global_state m) ∧
      total_cancelled (global_state m') = total_cancelled (global_state m) ∧
      total_crawled (global_state m') + total_failed (global_state m') =
        total_crawled (global_state m) + total_failed (global_state m) + 1
  | Exit _ m' => emitted m' = emitted m ∧ global_state m' = global_state m
  end.
Proof.
  unfold fetch_url.
  step. unfold Mach.steady_now at 1, Mach.get at 1. step.
  pose proof (http_fetch_cases UrlRequest url url_config (user_agent b) m) as Hfetch.
  destruct (http_fetch _ _ _ _ m) as [r m1|code m1]; simpl in Hfetch.
  - destruct Hfetch as (_ & _ & _ & Hemitted & Hglobal & _).
    unfold bindM, Mach.steady_now, Mach.modify_global, Mach.modify, Mach.get, retM.
    destruct (success r); simpl; rewrite Hglobal; repeat split; try done; lia.
  - destruct Hfetch as (_ & Hemitted & Hglobal & _). done.
Qed.

Lemma skip_disallowed_counters b url domain m :
  ∃ m', skip_disallowed b url domain m =
          Ret (if log_skipped b
               then [skipped_row url domain (GetCurrentTimestamp (clock m))] else []) m' ∧
        emitted m' = emitted m ∧
        counters (global_state m') =
          (current_url_index (global_state m), total_crawled (global_state m),
           total_failed (global_state m), total_skipped (global_state m) + 1,
           total_cancelled (global_state m)).
Proof.
  unfold skip_disallowed, bindM, Mach.modify_global, Mach.modify, Mach.get, retM.
  eexists. split; [destruct (log_skipped b); reflexivity|]. done.
Qed.

(** Between calls every URL taken from the list has been counted once,
    and every one that was not cancelled has its row. *)
Definition settled (b : CrawlerBindData) (m : Machine) : Prop :=
  let g := global_state m in
  Z.of_nat (length (emitted m)) = total_crawled g + total_failed g + total_skipped g ∧
  Z.of_nat (current_url_index g) =
    total_crawled g + total_failed g + total_skipped g + total_cancelled g ∧
  0 ≤ total_cancelled g ∧
  (current_url_index g ≤ length (urls b))%nat.

(** At an exit one URL may be in flight: taken, and counted nowhere. *)
Definition in_flight (b : CrawlerBindData) (m : Machine) : Prop :=
  let g := global_state m in
  let rows := Z.of_nat (length (emitted m)) in
  rows = total_crawled g + total_failed g + total_skipped g ∧
  rows + total_cancelled g ≤ Z.of_nat (current_url_index g) ≤ rows + total_cancelled g + 1 ∧
  0 ≤ total_cancelled g ∧
  (current_url_index g ≤ length (urls b))%nat.

Lemma settled_in_flight b m m' :
  settled b m → emitted m' = emitted m → global_state m' = global_state m →
  in_flight b m'.
Proof.
  unfold settled, in_flight. cbv zeta. intros (Hrows & Hindex & Hcancelled & Hlen) -> ->.
  repeat split; try done; lia.
Qed.

Lemma CrawlerFunction_settled b m :
  log_skipped b = true →
  settled b m →
  match CrawlerFunction b m with
  | Ret chunk m' => settled b (collect chunk m')
  | Exit _ m' => in_flight b m'
  end.
Proof.
  intros Hlog Hsettled.
  destruct (finished (local_state m)) eqn:Hfin;
    [rewrite CrawlerFunction_idle by auto; done|].
  destruct (g_shutdown_requested (signals m)) eqn:Hflag;
    [rewrite CrawlerFunction_idle by auto; done|].
  destruct (urls b !! current_url_index (global_state m)) as [url|] eqn:Hurl;
    [|rewrite CrawlerFunction_done by done; done].
  rewrite (CrawlerFunction_takes b m url) by done. cbv zeta.
  apply lookup_lt_Some in Hurl.
  destruct Hsettled as (Hrows & Hindex & Hcancelled & Hlen).
  set (domain := ExtractDomain url).
  pose proof (fetch_robots_txt_cases b domain (take_url url m)) as Hrobots.
  cbv zeta in Hrobots.
  destruct (fetch_robots_txt b domain (take_url url m)) as [[] m1|code m1].
  2: { destruct Hrobots as (_ & _ & Hemitted1 & Hglobal1).
       unfold in_flight. cbv zeta. rewrite Hemitted1, Hglobal1. simpl.
       repeat split; try done; lia. }
  destruct Hrobots as (_ & _ & Hemitted1 & _ & _ & _ & Hcounters1).
  unfold counters in Hcounters1. simpl in Hcounters1.
  injection Hcounters1 as Hi1 Hc1 Hf1 Hs1 Hx1. simpl in Hemitted1.
  destruct (robots_allow _ _ _).
  - pose proof (wait_for_crawl_delay_cases domain m1) as Hwait. cbv zeta in Hwait.
    destruct (wait_for_crawl_delay domain m1) as [[] m2|code m2].
    + destruct Hwait as ((_ & Hemitted2 & Hglobal2 & _) & _).
      destruct (g_shutdown_requested (signals m2)).
      * unfold settled, collect, cancel. simpl. rewrite Hemitted2, Hglobal2, Hemitted1.
        repeat split; try done; lia.
      * pose proof (fetch_url_counters b url domain m2) as Hfetch.
        destruct (fetch_url b url domain m2) as [chunk m3|code m3].
        -- destruct Hfetch as (Hone & Hemitted3 & Hi3 & Hs3 & Hx3 & Hcf3).
           destruct chunk as [|row [|row' rows]]; try done.
           unfold settled, collect. simpl.
           rewrite length_app, Hemitted3, Hemitted2, Hemitted1, Hi3, Hs3, Hx3.
           rewrite Hglobal2 in Hcf3. rewrite !Hglobal2. simpl.
           repeat split; try done; lia.
        -- destruct Hfetch as (Hemitted3 & Hglobal3).
           unfold in_flight. cbv zeta.
           rewrite Hemitted3, Hglobal3, Hemitted2, Hglobal2, Hemitted1.
           repeat split; try done; lia.
    + destruct Hwait as (_ & Hemitted2 & Hglobal2 & _).
      unfold in_flight. cbv zeta. rewrite Hemitted2, Hglobal2, Hemitted1.
      repeat split; try done; lia.
  - destruct (skip_disallowed_counters b url domain m1) as (m' & -> & Hemitted' & Hcounters').
    unfold counters in Hcounters'. injection Hcounters' as Hi' Hc' Hf' Hs' Hx'.
    rewrite Hlog. unfold settled, collect. simpl.
    rewrite length_app, Hemitted', Hemitted1, Hi', Hc', Hf', Hs', Hx'. simpl.
    repeat split; try done; lia.
Qed.

Variable between_calls : Z → N.

Lemma scan_settled fuel b m :
  log_skipped b = true →
  settled b m →
  match scan between_calls fuel b m with
  | Ret _ m' => settled b m'
  | Exit _ m' => in_flight b m'
  end.
Proof.
  intros Hlog. apply (scan_invariant between_calls (settled b) (in_flight b)).
  - intros d m0 Hm0. pose proof (advance_cases d m0) as Hadv.
    destruct (Mach.advance d m0) as [[] m1|code m1].
    + destruct Hadv as (_ & _ & Hemitted & Hglobal & _).
      unfold settled in *. cbv zeta in *. by rewrite Hemitted, Hglobal.
    + destruct Hadv as (_ & _ & Hemitted & Hglobal & _).
      by eapply settled_in_flight.
  - intros m0. by apply CrawlerFunction_settled.
Qed.

End Statistics.

(** X12. The counters of a run add up.  Every row handed to the engine is
    counted as crawled, failed or skipped, and nothing else is.  When the
    statement returns, the URLs taken from the list are exactly the rows
    plus the URLs cancelled by a shutdown request.  When a second SIGINT
    ends the process, at most one URL more has been taken: the one in
    flight, which is counted nowhere. *)
Theorem counters_add_up `{HttpClient} `{RobotsParser} `{Platform}
    (between_calls : Z → N) input now sigints r :
  crawl_urls between_calls input (boot now sigints) = inr r →
  let g := global_state (machine_of r) in
  let rows := Z.of_nat (length (emitted (machine_of r))) in
  rows = total_crawled g + total_failed g + total_skipped g ∧
  0 ≤ total_cancelled g ∧
  (current_url_index g ≤ length (urls (bound input)))%nat ∧
  match r with
  | Ret _ _ => Z.of_nat (current_url_index g) = rows + total_cancelled g
  | Exit _ _ =>
      rows + total_cancelled g ≤ Z.of_nat (current_url_index g) ≤ rows + total_cancelled g + 1
  end.
Proof.
  intros Hrun. cbv zeta.
  destruct (CrawlerBind input) as [e|out] eqn:Hbind.
  { unfold crawl_urls in Hrun. by rewrite Hbind in Hrun. }
  rewrite (crawl_urls_bound _ _ _ _ _ Hbind) in Hrun.
  assert (bound input = bind_data out) as -> by (unfold bound; by rewrite Hbind).
  destruct (CrawlerBind_switches _ _ Hbind) as [_ Hlog].
  assert (settled (bind_data out) (started now sigints)) as Hstart.
  { unfold settled. simpl. repeat split; try done; lia. }
  pose proof (scan_settled between_calls (S (length (urls (bind_data out))))
                (bind_data out) _ Hlog Hstart) as Hscan.
  assert (∀ x y : Res unit, @inr Exception _ x = inr y → y = x) as Hinr by congruence.
  rewrite (Hinr _ _ Hrun).
  destruct (scan _ _ _ _) as [[] m'|code m'].
  - destruct Hscan as (Hrows & Hindex & Hcancelled & Hlen). simpl.
    repeat split; try done; lia.
  - destruct Hscan as (Hrows & Hindex & Hcancelled & Hlen). simpl.
    repeat split; try done; lia.
Qed.

Lemma counters_add_up_witness :
  let r := World.three_pages in
  let g := global_state (machine_of r) in
  let rows := Z.of_nat (length (emitted (machine_of r))) in
  rows = total_crawled g + total_failed g + total_skipped g ∧
  0 ≤ total_cancelled g ∧
  (current_url_index g ≤ length (urls (bound (World.query World.three_urls World.bot))))%nat ∧
  match r with
  | Ret _ _ => Z.of_nat (current_url_index g) = rows + total_cancelled g
  | Exit _ _ =>
      rows + total_cancelled g ≤ Z.of_nat (current_url_index g) ≤ rows + total_cancelled g + 1
  end.
Proof.
  apply (@counters_add_up World.http World.robots World.platform World.no_gap
           (World.query World.three_urls World.bot) one_hour [] World.three_pages).
  vm_compute. reflexivity.
Defined.

(** *** Runs without a SIGINT *)

(** The first two columns and the width of a row, and what they are for
    the row of [url]. *)
Definition row_key (row : Row) : option Value * option Value * nat :=
  (column Bind.names row "url", column Bind.names row "domain", length row).

Definition url_key (url : string) : option Value * option Value * nat :=
  (Some (VVarchar url), Some (VVarchar (ExtractDomain url)), 8%nat).

Section QuietRuns.

Context `{HttpClient} `{RobotsParser} `{Platform}.

(** [quiet], as a condition on the flags and the SIGINTs to come. *)
Definition no_sigint (s : SignalState) (ps : list Z) : Prop :=
  ps = [] ∧ g_shutdown_requested s = false.

Lemma quiet_deliver upto s ps :
  no_sigint s ps →
  ∃ s' ps', Mach.deliver_sigints upto ps s = (s', ps', None) ∧ no_sigint s' ps'.
Proof. intros [-> Hflag]. simpl. unfold no_sigint. eauto. Qed.

(** With no SIGINT about, a call that takes a URL returns its row: the
    row of the fetch, or the row that reports the robots.txt skip. *)
Lemma CrawlerFunction_quiet_row b m url :
  log_skipped b = true →
  quiet m →
  finished (local_state m) = false →
  urls b !! current_url_index (global_state m) = Some url →
  ∃ row m', CrawlerFunction b m = Ret [row] m' ∧ row_key row = url_key url ∧
            quiet m' ∧ finished (local_state m') = false ∧
            emitted m' = emitted m ∧
            current_url_index (global_state m') = S (current_url_index (global_state m)).
Proof.
  intros Hlog Hquiet Hfin Hurl.
  rewrite (CrawlerFunction_takes b m url) by (destruct Hquiet; done). cbv zeta.
  set (domain := ExtractDomain url).
  pose proof (robots_step_cases b url m) as Hrobots. cbv zeta in Hrobots.
  fold domain in Hrobots.
  destruct (fetch_robots_txt_quiet b domain (take_url url m) Hquiet) as (m1 & Heq1 & Hquiet1).
  rewrite Heq1 in *.
  destruct Hrobots as (_ & _ & Hemitted1 & Hlocal1 & _ & _ & Hindex1 & _).
  destruct (robots_allow _ _ _).
  - pose proof (wait_for_crawl_delay_cases domain m1) as Hwait. cbv zeta in Hwait.
    destruct (wait_for_crawl_delay_quiet domain m1 Hquiet1) as (m2 & Heq2 & Hquiet2).
    rewrite Heq2 in *.
    destruct Hwait as ((_ & Hemitted2 & Hglobal2 & Hlocal2) & _).
    rewrite (proj2 Hquiet2).
    pose proof (fetch_url_cases b url domain m2) as Hfetch. cbv zeta in Hfetch.
    destruct (fetch_url_undisturbed no_sigint quiet_deliver b url domain m2 Hquiet2)
      as (chunk & m3 & Heq3 & Hquiet3).
    rewrite Heq3 in *.
    destruct Hfetch as (-> & _ & _ & Hemitted3 & Hlocal3 & Hindex3 & _).
    do 2 eexists. split; [reflexivity|].
    split; [reflexivity|]. split; [exact Hquiet3|].
    split; [by rewrite Hlocal3, Hlocal2, Hlocal1|].
    split; [by rewrite Hemitted3, Hemitted2, Hemitted1|].
    by rewrite Hindex3, Hglobal2, Hindex1.
  - destruct (skip_disallowed_run b url domain m1)
      as (m' & Heq' & _ & _ & _ & Hemitted' & Hlocal' & Hindex' & _).
    destruct (skip_disallowed_undisturbed no_sigint b url domain m1 Hquiet1)
      as (chunk & m'' & Heq'' & Hquiet').
    rewrite Heq' in Heq''. injection Heq'' as _ <-.
    rewrite Heq', Hlog.
    do 2 eexists. split; [reflexivity|].
    split; [reflexivity|]. split; [exact Hquiet'|].
    split; [by rewrite Hlocal', Hlocal1|].
    split; [by rewrite Hemitted', Hemitted1|].
    by rewrite Hindex', Hindex1.
Qed.

Variable between_calls : Z → N.

Lemma scan_quiet_rows b :
  log_skipped b = true →
  ∀ fuel m,
    quiet m → finished (local_state m) = false →
    (length (urls b) - current_url_index (global_state m) < fuel)%nat →
    ∃ m', scan between_calls fuel b m = Ret tt m' ∧
          finished (local_state m') = true ∧
          current_url_index (global_state m') =
            Nat.max (length (urls b)) (current_url_index (global_state m)) ∧
          map row_key (emitted m') =
            map row_key (emitted m) ++
            map url_key (drop (current_url_index (global_state m)) (urls b)).
Proof.
  intros Hlog. induction fuel as [|fuel IH]; intros m Hquiet Hfin Hfuel; [lia|].
  cbn [scan]. unfold Mach.steady_now, Mach.get. step. step.
  pose proof (advance_cases (Z.of_N (between_calls (clock m))) m) as Hadv.
  destruct (advance_quiet (Z.of_N (between_calls (clock m))) m Hquiet)
    as (m1 & Heq1 & Hquiet1).
  rewrite Heq1 in *. destruct Hadv as (_ & _ & Hemitted1 & Hglobal1 & Hlocal1).
  step.
  destruct (urls b !! current_url_index (global_state m)) as [url|] eqn:Hurl.
  - destruct (CrawlerFunction_quiet_row b m1 url Hlog Hquiet1)
      as (row & m2 & -> & Hkey & Hquiet2 & Hfin2 & Hemitted2 & Hindex2);
      [by rewrite Hlocal1|by rewrite Hglobal1|].
    unfold Mach.modify. step.
    pose proof (lookup_lt_Some _ _ _ Hurl) as Hlt.
    destruct (IH (Mach.with_emitted (emitted m2 ++ [row]) m2))
      as (m' & -> & Hfin' & Hindex' & Hrows'); [exact Hquiet2|exact Hfin2| |].
    { simpl. rewrite Hindex2, Hglobal1. lia. }
    eexists. split; [reflexivity|]. split; [exact Hfin'|].
    simpl in Hindex', Hrows'. rewrite Hindex2, Hglobal1 in Hindex', Hrows'.
    split; [lia|].
    rewrite Hrows', Hemitted2, Hemitted1, (drop_S _ _ _ Hurl), map_app, <- app_assoc.
    simpl. by rewrite Hkey.
  - rewrite CrawlerFunction_done; [|by rewrite Hlocal1|apply Hquiet1|by rewrite Hglobal1].
    pose proof (lookup_ge_None_1 _ _ Hurl) as Hge.
    eexists. split; [reflexivity|]. simpl.
    rewrite Hglobal1, Hemitted1, drop_ge by done. rewrite app_nil_r.
    repeat split; try done. lia.
Qed.

End QuietRuns.

(** X13. A statement that binds and meets no SIGINT returns, and has
    handed the engine exactly one row per input URL, in input order: the
    row's [url] column is the input string, its [domain] column what
    [ExtractDomain] makes of it, and it has the eight declared columns.
    This holds whether the fetch succeeds, fails, or robots.txt forbids
    the URL.  The scan ends with the whole list taken. *)
Theorem undisturbed_crawl_reports_every_url `{HttpClient} `{RobotsParser} `{Platform}
    (between_calls : Z → N) input out now :
  CrawlerBind input = inr out →
  ∃ m, crawl_urls between_calls input (boot now []) = inr (Ret tt m) ∧
       map row_key (emitted m) = map url_key (urls (bind_data out)) ∧
       finished (local_state m) = true ∧
       current_url_index (global_state m) = length (urls (bind_data out)).
Proof.
  intros Hbind. rewrite (crawl_urls_bound _ _ _ _ _ Hbind).
  destruct (CrawlerBind_switches _ _ Hbind) as [_ Hlog].
  destruct (scan_quiet_rows between_calls (bind_data out) Hlog
              (S (length (urls (bind_data out)))) (started now []))
    as (m & -> & Hfin & Hindex & Hrows); [done|done|simpl; lia|].
  exists m. split; [done|]. simpl in Hindex, Hrows.
  split; [by rewrite Hrows|]. split; [done|lia].
Qed.

Lemma undisturbed_crawl_reports_every_url_witness :
  ∃ m, World.run (World.query ["https://example.com/private/x"; "https://down.example/a";
                               "https://example.com/a"] World.bot) (boot one_hour []) =
         inr (Ret tt m) ∧
       map row_key (emitted m) =
         map url_key ["https://example.com/private/x"; "https://down.example/a";
                      "https://example.com/a"] ∧
       finished (local_state m) = true ∧
       current_url_index (global_state m) = 3%nat.
Proof.
  apply (@undisturbed_crawl_reports_every_url World.http World.robots World.platform
           World.no_gap
           (World.query ["https://example.com/private/x"; "https://down.example/a";
                         "https://example.com/a"] World.bot)
           (mkBindOutput
              (mkCrawlerBindData ["https://example.com/private/x"; "https://down.example/a";
                                  "https://example.com/a"] "bot" 1 0 60 30 true true)
              Bind.return_types Bind.names)
           one_hour).
  reflexivity.
Defined.

(** *** The requests of a run *)

Definition is_robots_request (e : Event) : bool :=
  match ev_kind e with RobotsRequest => true | UrlRequest => false end.

(** The URLs of the robots.txt requests, oldest first. *)
Definition robots_urls (tr : list Event) : list string :=
  map ev_url (List.filter is_robots_request tr).

(** No robots.txt URL was requested twice, and every domain whose
    robots.txt was requested is marked as fetched. *)
Definition robots_once (m : Machine) : Prop :=
  NoDup (robots_urls (trace m)) ∧
  ∀ u, u ∈ robots_urls (trace m) →
       ∃ d, u = robots_url d ∧ robots_fetched (Glob.domain_state (global_state m) d) = true.

(** Every request so far carries the user agent of the statement and the
    retry configuration of its kind. *)
Definition as_configured (b : CrawlerBindData) (e : Event) : Prop :=
  ev_user_agent e = user_agent b ∧
  ev_config e = match ev_kind e with
                | RobotsRequest => set_max_retries 2 RetryConfig_default
                | UrlRequest => set_max_retries 3 RetryConfig_default
                end.

Section Requests.

Context `{HttpClient} `{RobotsParser} `{Platform}.

Lemma append_inj_r (a b s : string) : (a ++ s = b ++ s)%string → a = b.
Proof.
  revert b. induction a as [|x a IH]; intros [|y b] Heq.
  - done.
  - apply (f_equal String.length) in Heq.
    rewrite !StrFacts.length_append in Heq. simpl in Heq. lia.
  - apply (f_equal String.length) in Heq.
    rewrite !StrFacts.length_append in Heq. simpl in Heq. lia.
  - rewrite !StrFacts.append_cons in Heq. injection Heq as -> Heq.
    by rewrite (IH _ Heq).
Qed.

(** Distinct domains have distinct robots.txt URLs. *)
Lemma robots_url_inj d d' : robots_url d = robots_url d' → d = d'.
Proof.
  unfold robots_url. rewrite !StrFacts.append_cons, !StrFacts.append_nil.
  intros [= Heq]. by apply append_inj_r in Heq.
Qed.

Lemma robots_urls_app tr tr' : robots_urls (tr ++ tr') = robots_urls tr ++ robots_urls tr'.
Proof. unfold robots_urls. by rewrite List.filter_app, map_app. Qed.

Lemma robots_urls_robots_events b url m :
  robots_urls (robots_events b url m) =
  if robots_pending b (ExtractDomain url) m then [robots_url (ExtractDomain url)] else [].
Proof. unfold robots_events. by destruct (robots_pending _ _ _). Qed.

Lemma robots_once_frame m m' :
  robots_once m →
  robots_urls (trace m') = robots_urls (trace m) →
  (∀ d, robots_fetched (Glob.domain_state (global_state m') d) =
        robots_fetched (Glob.domain_state (global_state m) d)) →
  robots_once m'.
Proof.
  intros [Hnodup Hfetched] Htrace Hsame. split; rewrite Htrace; [done|].
  intros u Hu. destruct (Hfetched u Hu) as (d & -> & Hd).
  exists d. by rewrite Hsame.
Qed.

(** The robots.txt request of a call is for a URL not requested before. *)
Lemma robots_step_fresh b url m :
  robots_once m → NoDup (robots_urls (trace m ++ robots_events b url m)).
Proof.
  intros [Hnodup Hfetched]. rewrite robots_urls_app, robots_urls_robots_events.
  destruct (robots_pending b (ExtractDomain url) m) eqn:Hpending;
    [|by rewrite app_nil_r].
  apply NoDup_app. split; [done|]. split; [|apply NoDup_singleton].
  intros u Hu Hnew. apply list_elem_of_singleton in Hnew as ->.
  destruct (Hfetched _ Hu) as (d & Heq & Hd).
  apply robots_url_inj in Heq as <-.
  unfold robots_pending in Hpending. rewrite Hd in Hpending.
  by rewrite andb_false_r in Hpending.
Qed.

Lemma robots_step_once b url m :
  robots_once m →
  match fetch_robots_txt b (ExtractDomain url) (take_url url m) with
  | Ret _ m1 => robots_once m1
  | Exit _ m1 => NoDup (robots_urls (trace m1))
  end.
Proof.
  intros Honce. pose proof (robots_step_fresh b url m Honce) as Hfresh.
  pose proof (robots_step_cases b url m) as Hrobots. cbv zeta in Hrobots.
  destruct (fetch_robots_txt _ _ _) as [[] m1|code m1].
  2: { destruct Hrobots as (_ & -> & _). exact Hfresh. }
  destruct Hrobots as (Htrace1 & _ & _ & _ & Hdomain & Hothers & _).
  destruct Honce as [_ Hfetched].
  assert (∀ d, robots_fetched (Glob.domain_state (global_state m) d) = true →
               robots_fetched (Glob.domain_state (global_state m1) d) = true) as Hkept.
  { intros d Hd. destruct (decide (d = ExtractDomain url)) as [->|Hne].
    - rewrite Hdomain. unfold domain_after_robots.
      by destruct (robots_pending _ _ _).
    - by rewrite Hothers. }
  split; rewrite Htrace1; [done|].
  intros u Hu. rewrite robots_urls_app, robots_urls_robots_events in Hu.
  apply elem_of_app in Hu as [Hold|Hnew].
  - destruct (Hfetched _ Hold) as (d & -> & Hd). exists d. auto.
  - destruct (robots_pending b (ExtractDomain url) m) eqn:Hpending;
      [|by apply elem_of_nil in Hnew].
    apply list_elem_of_singleton in Hnew as ->.
    exists (ExtractDomain url). split; [done|].
    rewrite Hdomain. unfold domain_after_robots. by rewrite Hpending.
Qed.

Lemma CrawlerFunction_robots_once b m :
  robots_once m →
  match CrawlerFunction b m with
  | Ret chunk m' => robots_once (collect chunk m')
  | Exit _ m' => NoDup (robots_urls (trace m'))
  end.
Proof.
  intros Honce.
  destruct (finished (local_state m)) eqn:Hfin;
    [rewrite CrawlerFunction_idle by auto; done|].
  destruct (g_shutdown_requested (signals m)) eqn:Hflag;
    [rewrite CrawlerFunction_idle by auto; done|].
  destruct (urls b !! current_url_index (global_state m)) as [url|] eqn:Hurl;
    [|rewrite CrawlerFunction_done by done; done].
  rewrite (CrawlerFunction_takes b m url) by done. cbv zeta.
  set (domain := ExtractDomain url).
  pose proof (robots_step_once b url m Honce) as Hrobots. fold domain in Hrobots.
  destruct (fetch_robots_txt b domain (take_url url m)) as [[] m1|code m1]; [|done].
  destruct (robots_allow _ _ _).
  - pose proof (wait_for_crawl_delay_cases domain m1) as Hwait. cbv zeta in Hwait.
    destruct (wait_for_crawl_delay domain m1) as [[] m2|code m2].
    + destruct Hwait as ((Htrace2 & _ & Hglobal2 & _) & _).
      assert (robots_once m2) as Honce2.
      { eapply robots_once_frame; [exact Hrobots|by rewrite Htrace2|].
        intros d. by rewrite Hglobal2. }
      destruct (g_shutdown_requested (signals m2)); [done|].
      pose proof (fetch_url_cases b url domain m2) as Hfetch. cbv zeta in Hfetch.
      destruct (fetch_url b url domain m2) as [chunk m3|code m3].
      * destruct Hfetch as (-> & Htrace3 & _ & _ & _ & _ & _ & _ & Hpolicy & Hothers).
        unfold collect. eapply robots_once_frame; [exact Honce2| |].
        -- simpl. rewrite Htrace3, robots_urls_app. simpl. by rewrite app_nil_r.
        -- intros d. simpl. destruct (decide (d = domain)) as [->|Hne].
           ++ unfold policy in Hpolicy. by injection Hpolicy.
           ++ by rewrite Hothers.
      * destruct Hfetch as (-> & _). rewrite robots_urls_app. simpl.
        rewrite app_nil_r. apply Honce2.
    + destruct Hwait as (-> & _). apply Hrobots.
  - destruct (skip_disallowed_run b url domain m1)
      as (m' & -> & _ & _ & Htrace' & _ & _ & _ & _ & Hstates).
    assert (robots_once m') as Honce'.
    { eapply robots_once_frame; [exact Hrobots|by rewrite Htrace'|].
      intros d. destruct (Hstates d) as [Hpolicy _]. unfold policy in Hpolicy.
      by injection Hpolicy. }
    by destruct (log_skipped b).
Qed.

Lemma CrawlerFunction_as_configured b m :
  Forall (as_configured b) (trace m) →
  Forall (as_configured b) (trace (machine_of (CrawlerFunction b m))).
Proof.
  intros Hall.
  destruct (finished (local_state m)) eqn:Hfin;
    [rewrite CrawlerFunction_idle by auto; done|].
  destruct (g_shutdown_requested (signals m)) eqn:Hflag;
    [rewrite CrawlerFunction_idle by auto; done|].
  destruct (urls b !! current_url_index (global_state m)) as [url|] eqn:Hurl;
    [|rewrite CrawlerFunction_done by done; done].
  destruct (CrawlerFunction_requests b m url) as (rest & -> & Hrest); [done|].
  apply Forall_app. split; [done|]. apply Forall_app. split.
  - unfold robots_events. destruct (robots_pending _ _ _); [|done].
    apply Forall_singleton. done.
  - destruct Hrest as [->|(e & -> & Hkind & _ & Hconfig & Hua)]; [done|].
    apply Forall_singleton. split; [done|]. by rewrite Hkind, Hconfig.
Qed.

Variable between_calls : Z → N.

Lemma scan_robots_once fuel b m :
  robots_once m →
  match scan between_calls fuel b m with
  | Ret _ m' => robots_once m'
  | Exit _ m' => NoDup (robots_urls (trace m'))
  end.
Proof.
  apply (scan_invariant between_calls robots_once (λ m', NoDup (robots_urls (trace m')))).
  - intros d m0 Hm0. pose proof (advance_cases d m0) as Hadv.
    destruct (Mach.advance d m0) as [[] m1|code m1].
    + destruct Hadv as (_ & Htrace & _ & Hglobal & _).
      eapply robots_once_frame; [exact Hm0|by rewrite Htrace|].
      intros d'. by rewrite Hglobal.
    + destruct Hadv as (_ & -> & _). apply Hm0.
  - intros m0. apply CrawlerFunction_robots_once.
Qed.

Lemma scan_as_configured fuel b m :
  Forall (as_configured b) (trace m) →
  Forall (as_configured b) (trace (machine_of (scan between_calls fuel b m))).
Proof.
  intros Hall.
  pose proof (scan_invariant between_calls
                (λ m', Forall (as_configured b) (trace m'))
                (λ m', Forall (as_configured b) (trace m')) b) as Hscan.
  specialize (Hscan
    ltac:(intros d m0 Hm0; pose proof (advance_cases d m0) as Hadv;
          destruct (Mach.advance d m0) as [[] m1|code m1];
          destruct Hadv as (_ & -> & _); exact Hm0)
    ltac:(intros m0 Hm0; pose proof (CrawlerFunction_as_configured b m0 Hm0) as Hcall;
          destruct (CrawlerFunction b m0) as [[|row rows] m1|code m1]; exact Hcall)
    fuel m Hall).
  by destruct (scan between_calls fuel b m).
Qed.

(** The scan reads nothing of [timeout_seconds]. *)
Lemma scan_ignores_timeout t b : ∀ fuel m,
  scan between_calls fuel (Bind.with_timeout_seconds t b) m = scan between_calls fuel b m.
Proof.
  induction fuel as [|fuel IH]; intros m; [done|].
  cbn [scan]. unfold bindM.
  destruct (Mach.steady_now m) as [now m0|]; [|done].
  destruct (Mach.advance _ m0) as [[] m1|]; [|done].
  change (CrawlerFunction (Bind.with_timeout_seconds t b)) with (CrawlerFunction b).
  destruct (CrawlerFunction b m1) as [[|row rows] m2|]; [done| |done].
  destruct (Mach.modify _ m2) as [[] m3|]; [|done].
  apply IH.
Qed.

End Requests.

(** X14. In one run robots.txt is requested at most once per domain: no
    two robots.txt requests of the run go to the same URL (and distinct
    domains have distinct robots.txt URLs, [robots_url_inj]).  This holds
    whether the fetch of robots.txt succeeded or not, and up to the point
    of exit when a second SIGINT ends the process. *)
Theorem robots_txt_requested_once_per_domain `{HttpClient} `{RobotsParser} `{Platform}
    (between_calls : Z → N) input now sigints r :
  crawl_urls between_calls input (boot now sigints) = inr r →
  NoDup (robots_urls (trace (machine_of r))).
Proof.
  intros Hrun.
  destruct (CrawlerBind input) as [e|out] eqn:Hbind.
  { unfold crawl_urls in Hrun. by rewrite Hbind in Hrun. }
  rewrite (crawl_urls_bound _ _ _ _ _ Hbind) in Hrun.
  assert (robots_once (started now sigints)) as Hstart.
  { split; [apply NoDup_nil_2|]. intros u Hu. by apply elem_of_nil in Hu. }
  pose proof (scan_robots_once between_calls (S (length (urls (bind_data out))))
                (bind_data out) _ Hstart) as Hscan.
  assert (∀ x y : Res unit, @inr Exception _ x = inr y → y = x) as Hinr by congruence.
  rewrite (Hinr _ _ Hrun).
  destruct (scan _ _ _ _); [apply Hscan|exact Hscan].
Qed.

Lemma robots_txt_requested_once_per_domain_witness :
  NoDup (robots_urls (trace (machine_of World.three_pages))).
Proof.
  apply (@robots_txt_requested_once_per_domain World.http World.robots World.platform
           World.no_gap (World.query World.three_urls World.bot) one_hour []
           World.three_pages).
  vm_compute. reflexivity.
Defined.

(** X15. Every HTTP request of a run is sent with the user agent bound
    from the [user_agent] parameter; a robots.txt request allows 2 retries
    and a request for an input URL 3, the other retry settings being the
    defaults of [RetryConfig]. *)
Theorem requests_carry_user_agent_and_retries `{HttpClient} `{RobotsParser} `{Platform}
    (between_calls : Z → N) input now sigints r e :
  crawl_urls between_calls input (boot now sigints) = inr r →
  e ∈ trace (machine_of r) →
  ev_user_agent e = user_agent (bound input) ∧
  ev_config e =
    {| max_retries := match ev_kind e with RobotsRequest => 2 | UrlRequest => 3 end;
       initial_backoff_ms := 100; backoff_multiplier := 2; max_backoff_ms := 30000 |}.
Proof.
  intros Hrun Hin.
  destruct (CrawlerBind input) as [x|out] eqn:Hbind.
  { unfold crawl_urls in Hrun. by rewrite Hbind in Hrun. }
  rewrite (crawl_urls_bound _ _ _ _ _ Hbind) in Hrun.
  assert (bound input = bind_data out) as -> by (unfold bound; by rewrite Hbind).
  pose proof (scan_as_configured between_calls (S (length (urls (bind_data out))))
                (bind_data out) (started now sigints) (Forall_nil_2 _)) as Hscan.
  assert (∀ x y : Res unit, @inr Exception _ x = inr y → y = x) as Hinr by congruence.
  rewrite (Hinr _ _ Hrun) in Hin.
  rewrite Forall_forall in Hscan. destruct (Hscan e Hin) as [Hua Hconfig].
  split; [done|]. rewrite Hconfig. by destruct (ev_kind e).
Qed.

Lemma requests_carry_user_agent_and_retries_witness :
  let e := mkEvent UrlRequest "https://example.com/a" url_config "bot"
             (one_hour + World.ms 5) (one_hour + World.ms 25) in
  ev_user_agent e = user_agent (bound (World.query World.three_urls World.bot)) ∧
  ev_config e =
    {| max_retries := match ev_kind e with RobotsRequest => 2 | UrlRequest => 3 end;
       initial_backoff_ms := 100; backoff_multiplier := 2; max_backoff_ms := 30000 |}.
Proof.
  apply (@requests_carry_user_agent_and_retries World.http World.robots World.platform
           World.no_gap (World.query World.three_urls World.bot) one_hour []
           World.three_pages).
  - vm_compute. reflexivity.
  - vm_compute. apply list_elem_of_further, list_elem_of_here.
Defined.

(** Bind data that differ at most in [timeout_seconds]. *)
Definition same_but_timeout (b b' : CrawlerBindData) : Prop :=
  Bind.with_timeout_seconds 0 b = Bind.with_timeout_seconds 0 b'.

(** X16. [timeout_seconds] has no effect on a run: two statements whose
    bind data differ only in the timeout issue the same requests at the
    same instants and return the same rows.  The value is bound and
    defaulted, and never handed to the HTTP client. *)
Theorem timeout_seconds_has_no_effect `{HttpClient} `{RobotsParser} `{Platform}
    (between_calls : Z → N) input input' out out' m :
  CrawlerBind input = inr out →
  CrawlerBind input' = inr out' →
  same_but_timeout (bind_data out) (bind_data out') →
  crawl_urls between_calls input m = crawl_urls between_calls input' m.
Proof.
  intros Hbind Hbind' Hsame.
  rewrite (crawl_urls_scan _ _ _ _ Hbind), (crawl_urls_scan _ _ _ _ Hbind').
  destruct (bind_data out) as [us ua dd mn mx t rr ls],
           (bind_data out') as [us' ua' dd' mn' mx' t' rr' ls'].
  unfold same_but_timeout, Bind.with_timeout_seconds in Hsame. simpl in Hsame.
  injection Hsame as <- <- <- <- <- <- <-. f_equal.
  cbn [urls].
  change (mkCrawlerBindData us ua dd mn mx t rr ls)
    with (Bind.with_timeout_seconds t (mkCrawlerBindData us ua dd mn mx t' rr ls)).
  apply scan_ignores_timeout.
Qed.

Lemma timeout_seconds_has_no_effect_witness :
  World.run (World.query World.three_urls
               [("user_agent", VVarchar "bot"); ("timeout_seconds", VInteger 1)])
            (boot one_hour []) =
  World.run (World.query World.three_urls
               [("user_agent", VVarchar "bot"); ("timeout_seconds", VInteger 600)])
            (boot one_hour []).
Proof.
  apply (@timeout_seconds_has_no_effect World.http World.robots World.platform World.no_gap
           (World.query World.three_urls
              [("user_agent", VVarchar "bot"); ("timeout_seconds", VInteger 1)])
           (World.query World.three_urls
              [("user_agent", VVarchar "bot"); ("timeout_seconds", VInteger 600)])
           (mkBindOutput (mkCrawlerBindData World.three_urls "bot" 1 0 60 1 true true)
              Bind.return_types Bind.names)
           (mkBindOutput (mkCrawlerBindData World.three_urls "bot" 1 0 60 600 true true)
              Bind.return_types Bind.names)
           (boot one_hour [])); reflexivity.
Defined.

(** *** Delays *)

Section DelayMore.

Context `{HttpClient} `{RobotsParser} `{Platform}.




Lemma to_milliseconds_lt x : 0 ≤ x → x < (to_milliseconds x + 1) * ns_per_ms.
Proof.
  intros Hx. unfold to_milliseconds, ns_per_ms.
  rewrite Z.quot_div_nonneg by lia.
  pose proof (Z.mod_pos_bound x 1000000). pose proof (Z.div_mod x 1000000). lia.
Qed.

End DelayMore.



(** X18. The wait before a fetch is exact to the millisecond.  Where the
    conversion of line 329 is defined and gives [ms] milliseconds, the
    domain's last fetch does not lie in the future and the wait returns,
    the clock stands at or after that fetch plus [ms] milliseconds; and
    either no time has passed at all, or the clock is less than one
    millisecond (plus whatever [sleep_for] overslept) past that instant. *)
Theorem wait_for_crawl_delay_is_tight `{Platform} domain m m' ms :
  let d := Glob.domain_state (global_state m) domain in
  let earliest := last_crawl_time d + ms * ns_per_ms in
  let asked := ms - to_milliseconds (clock m - last_crawl_time d) in
  delay_in_ms (crawl_delay_seconds d) = Some ms →
  last_crawl_time d ≤ clock m →
  wait_for_crawl_delay domain m = Ret tt m' →
  earliest ≤ clock m' ∧
  (clock m' = clock m ∨
   clock m' < earliest + ns_per_ms + Z.of_N (oversleep (clock m) asked)).
Proof.
  intros d earliest asked Hms Hlast Hwait.
  pose proof (required_delay_ms_defined d ms Hms) as Hrequired.
  pose proof (wait_for_crawl_delay_cases domain m) as Hcases. cbv zeta in Hcases.
  rewrite Hwait in Hcases. destruct Hcases as (_ & _ & Hearliest).
  fold d in Hearliest. rewrite Hrequired in Hearliest.
  split; [by apply Hearliest|].
  unfold wait_for_crawl_delay, bindM, Mach.steady_now, Mach.get in Hwait.
  fold d in Hwait. rewrite Hrequired in Hwait. fold asked in Hwait.
  destruct (Z.ltb _ _); [|left; unfold retM in Hwait; congruence].
  right. unfold sleep_for_ms in Hwait.
  pose proof (advance_cases (asked * ns_per_ms + Z.of_N (oversleep (clock m) asked)) m)
    as Hadv.
  rewrite Hwait in Hadv. destruct Hadv as [-> _].
  pose proof (to_milliseconds_lt (clock m - last_crawl_time d)) as Hms'.
  unfold earliest, asked, ns_per_ms in *. lia.
Qed.

Lemma wait_for_crawl_delay_is_tight_witness :
  let m := Mach.with_clock (one_hour + 7 * ns_per_s + 1234567)
             (Mach.with_global
                (Glob.update_domain "example.com"
                   (λ d, Dom.with_crawl_delay_seconds
                           (5404319552844595 # 18014398509481984)
                           (Dom.with_last_crawl_time (one_hour + 7 * ns_per_s) d))
                   (Glob.fresh one_hour))
                (boot one_hour [])) in
  let m' := Mach.with_clock (one_hour + 7 * ns_per_s + 1234567 + 299 * ns_per_ms) m in
  let d := Glob.domain_state (global_state m) "example.com" in
  let earliest := last_crawl_time d + 300 * ns_per_ms in
  let asked := 300 - to_milliseconds (clock m - last_crawl_time d) in
  earliest ≤ clock m' ∧
  (clock m' = clock m ∨
   clock m' < earliest + ns_per_ms +
              Z.of_N (@oversleep World.platform (clock m) asked)).
Proof.
  apply (@wait_for_crawl_delay_is_tight World.platform "example.com"
           (Mach.with_clock (one_hour + 7 * ns_per_s + 1234567)
              (Mach.with_global
                 (Glob.update_domain "example.com"
                    (λ d, Dom.with_crawl_delay_seconds
                            (5404319552844595 # 18014398509481984)
                            (Dom.with_last_crawl_time (one_hour + 7 * ns_per_s) d))
                    (Glob.fresh one_hour))
                 (boot one_hour [])))
           (Mach.with_clock (one_hour + 7 * ns_per_s + 1234567 + 299 * ns_per_ms)
              (Mach.with_clock (one_hour + 7 * ns_per_s + 1234567)
                 (Mach.with_global
                    (Glob.update_domain "example.com"
                       (λ d, Dom.with_crawl_delay_seconds
                               (5404319552844595 # 18014398509481984)
                               (Dom.with_last_crawl_time (one_hour + 7 * ns_per_s) d))
                       (Glob.fresh one_hour))
                    (boot one_hour []))))
           300).
  - vm_compute. reflexivity.
  - vm_compute. discriminate.
  - vm_compute. reflexivity.
Defined.

(** *** The end of the scan *)

Section ScanEnd.

Context `{HttpClient} `{RobotsParser} `{Platform}.

(** A call that returns a row has taken a URL from the list. *)
Lemma CrawlerFunction_progress b m row rows m' :
  CrawlerFunction b m = Ret (row :: rows) m' →
  current_url_index (global_state m') = S (current_url_index (global_state m)) ∧
  (current_url_index (global_state m) < length (urls b))%nat.
Proof.
  destruct (finished (local_state m)) eqn:Hfin;
    [rewrite CrawlerFunction_idle by auto; done|].
  destruct (g_shutdown_requested (signals m)) eqn:Hflag;
    [rewrite CrawlerFunction_idle by auto; done|].
  destruct (urls b !! current_url_index (global_state m)) as [url|] eqn:Hurl;
    [|rewrite CrawlerFunction_done by done; done].
  rewrite (CrawlerFunction_takes b m url) by done. cbv zeta.
  apply lookup_lt_Some in Hurl.
  set (domain := ExtractDomain url).
  pose proof (robots_step_cases b url m) as Hrobots. cbv zeta in Hrobots.
  fold domain in Hrobots.
  destruct (fetch_robots_txt b domain (take_url url m)) as [[] m1|code m1]; [|done].
  destruct Hrobots as (_ & _ & _ & _ & _ & _ & Hindex1 & _).
  destruct (robots_allow _ _ _).
  - pose proof (wait_for_crawl_delay_cases domain m1) as Hwait. cbv zeta in Hwait.
    destruct (wait_for_crawl_delay domain m1) as [[] m2|code m2]; [|done].
    destruct Hwait as ((_ & _ & Hglobal2 & _) & _).
    destruct (g_shutdown_requested (signals m2)); [done|].
    pose proof (fetch_url_cases b url domain m2) as Hfetch. cbv zeta in Hfetch.
    intros Hcall. rewrite Hcall in Hfetch.
    destruct Hfetch as (_ & _ & _ & _ & _ & Hindex3 & _).
    by rewrite Hindex3, Hglobal2, Hindex1.
  - destruct (skip_disallowed_run b url domain m1)
      as (m'' & -> & _ & _ & _ & _ & _ & Hindex' & _).
    intros [= _ <-]. by rewrite Hindex', Hindex1.
Qed.

Variable between_calls : Z → N.

Lemma scan_fuel b : ∀ fuel fuel' m,
  (length (urls b) - current_url_index (global_state m) < fuel)%nat →
  (fuel ≤ fuel')%nat →
  scan between_calls fuel' b m = scan between_calls fuel b m.
Proof.
  induction fuel as [|fuel IH]; intros fuel' m Hfuel Hle; [lia|].
  destruct fuel' as [|fuel']; [lia|].
  cbn [scan]. unfold bindM.
  destruct (Mach.steady_now m) as [now m0|] eqn:Hnow; [|done].
  unfold Mach.steady_now, Mach.get in Hnow. injection Hnow as <- <-.
  pose proof (advance_cases (Z.of_N (between_calls (clock m))) m) as Hadv.
  destruct (Mach.advance _ m) as [[] m1|]; [|done].
  destruct Hadv as (_ & _ & _ & Hglobal1 & _).
  destruct (CrawlerFunction b m1) as [[|row rows] m2|] eqn:Hcall; [done| |done].
  destruct (CrawlerFunction_progress _ _ _ _ _ Hcall) as [Hindex2 Hlt].
  unfold Mach.modify. apply IH; [|lia]. simpl. rewrite Hindex2, Hglobal1 in *. lia.
Qed.

End ScanEnd.

(** X19. The scan is over within one call per input URL and one more:
    by then the function has returned an empty chunk (the list is used up
    or a shutdown was requested) or the process has exited, so that
    allowing the engine any number of further calls changes nothing. *)
Theorem scan_ends_within_url_count `{HttpClient} `{RobotsParser} `{Platform}
    (between_calls : Z → N) b now sigints (more : nat) :
  scan between_calls (S (length (urls b)) + more) b (started now sigints) =
  scan between_calls (S (length (urls b))) b (started now sigints).
Proof. apply scan_fuel; simpl; lia. Qed.
